(** * walkTreeWithFlightRouterState: the flight-data tree walk

    A shallow embedding of [walkTreeWithFlightRouterState] (the server side
    walk that decides, from the client's router state, at which layout of the
    loader tree rendering has to start) and the properties of it that the
    specification states.

    Conventions of the embedding:
    - a JS object used as a map is a [gmap string _]; the loader tree's
      [parallelRoutes] is the list of its entries in [Object.keys] order,
      because the walk iterates over it and the order of the result follows;
      reading a property of the client's router-state map finds an own
      entry first and a property of [Object.prototype] otherwise;
    - a JS [Set<string>] is a reference: a location in a heap of
      [gset string]; [new Set(s)] allocates;
    - [await]/[throw] are an error monad; the walk is sequential, so a
      rejected promise is a thrown completion;
    - every invocation of the walk and of the renderer is recorded in a
      trace, so that what a call receives and when the renderer runs can be
      stated. *)

From stdpp Require Import gmap strings list fin_maps.

Set Warnings "-register-all,-level-tolerance,-clear-no-such-hyp".

(** ** Data model *)

(** [Segment = string | [param, value, type]].  [SegmentUndefined] is what
    index 0 gives of a value that is not a router-state tuple. *)
Inductive Segment :=
| SegmentString (s : string)
| SegmentTuple (param value type : string)
| SegmentUndefined.

#[global] Instance Segment_eq_dec : EqDecision Segment.
Proof. solve_decision. Defined.

(** [FlightRouterState = [segment, parallelRoutes, url?, refresh?, isRootLayout?]].
    Index 3 is the marker the walk compares with ['refetch'].
    [InheritedProperty key] is the value the expression
    [parallelRoutes[key]] has when the map has no own entry for [key] and
    [key] names a property of [Object.prototype] (the function [Object] for
    ['constructor'], the prototype itself for ['__proto__']): a truthy value
    whose indices 0, 1 and 3 are [undefined]. *)
Inductive FlightRouterState :=
| RouterState (segment : Segment)
              (parallelRoutes : gmap string FlightRouterState)
              (url : option string)
              (refresh : option string)
              (isRootLayout : option bool)
| InheritedProperty (key : string).

(** [flightRouterState[0]] *)
Definition frs_segment (f : FlightRouterState) : Segment :=
  match f with
  | RouterState s _ _ _ _ => s
  | InheritedProperty _ => SegmentUndefined
  end.

(** The own entries of [flightRouterState[1]]; there are none when it is
    [undefined]. *)
Definition frs_parallelRoutes (f : FlightRouterState) : gmap string FlightRouterState :=
  match f with
  | RouterState _ p _ _ _ => p
  | InheritedProperty _ => ∅
  end.

(** [flightRouterState[3]] *)
Definition frs_refresh (f : FlightRouterState) : option string :=
  match f with
  | RouterState _ _ _ r _ => r
  | InheritedProperty _ => None
  end.

(** The names of the properties of [Object.prototype]. *)
Definition objectPrototypeKeys : list string :=
  ["constructor"; "__defineGetter__"; "__defineSetter__"; "hasOwnProperty";
   "__lookupGetter__"; "__lookupSetter__"; "isPrototypeOf"; "propertyIsEnumerable";
   "toString"; "valueOf"; "__proto__"; "toLocaleString"].

(** [parallelRoutes[key]] on the plain object [parallelRoutes]: the own entry,
    else the inherited property, else [undefined]. *)
Definition getProperty
    (parallelRoutes : gmap string FlightRouterState) (key : string)
    : option FlightRouterState :=
  match parallelRoutes !! key with
  | Some child => Some child
  | None =>
      if bool_decide (key ∈ objectPrototypeKeys) then Some (InheritedProperty key)
      else None
  end.

(** A module entry [[getModule, filePath]]; only the path is read. *)
Record ModuleTuple := { filePath : string }.

Record AppDirModules := {
  layout : option ModuleTuple;
  loading : option ModuleTuple;
  page : option ModuleTuple
}.

(** [LoaderTree = [segment, parallelRoutes, modules]]. *)
Inductive LoaderTree :=
| LoaderTreeNode (segment : string)
                 (parallelRoutes : list (string * LoaderTree))
                 (modules : AppDirModules).

Definition lt_segment (t : LoaderTree) : string :=
  match t with LoaderTreeNode s _ _ => s end.

Definition lt_parallelRoutes (t : LoaderTree) : list (string * LoaderTree) :=
  match t with LoaderTreeNode _ p _ => p end.

Definition lt_modules (t : LoaderTree) : AppDirModules :=
  match t with LoaderTreeNode _ _ m => m end.

(** Number of nodes of a loader tree. *)
Fixpoint lt_size (t : LoaderTree) : nat :=
  match t with
  | LoaderTreeNode _ routes _ =>
      S ((fix sizes (l : list (string * LoaderTree)) : nat :=
            match l with
            | [] => 0
            | (_, c) :: rest => lt_size c + sizes rest
            end) routes)
  end.

(** Number of nodes below the entries of a [parallelRoutes]. *)
Definition routes_size (routes : list (string * LoaderTree)) : nat :=
  sum_list ((λ kc, lt_size kc.2) <$> routes).

(** [string | string[]] *)
Inductive ParamValue :=
| ParamString (s : string)
| ParamList (l : list string).

(** [{ [key: string]: string | string[] }] *)
Abbreviation Params := (gmap string ParamValue).

(** The result of [getDynamicParamFromSegment]; [value] may be [null]. *)
Record DynamicParam := {
  param : string;
  value : option ParamValue;
  treeSegment : Segment;
  type : string
}.

(** References to [Set<string>] objects and the store that holds them. *)
Abbreviation loc := positive.
Abbreviation Heap := (gmap positive (gset string)).

(** The types the walk only passes along. *)
Class HostTypes := {
  Query : Type;
  ClientReferenceManifest : Type;
  NextFontManifest : Type;
  SeedData : Type;
  ReactNode : Type;
  Thrown : Type;
  MetadataReady : Type;
  PreloadCallbacks : Type
}.

Section Model.
Context `{HT : HostTypes}.

Record Experimental := {
  isRoutePPREnabled : bool;
  authInterrupts : bool
}.

Record RenderOpts := {
  nextFontManifest : NextFontManifest;
  experimental : Experimental
}.

Record ParsedRequestHeaders := {
  isRouteTreePrefetchRequest : bool
}.

Record AppRenderContext := {
  renderOpts : RenderOpts;
  query : Query;
  isPrefetch : bool;
  getDynamicParamFromSegment : string -> option DynamicParam;
  parsedRequestHeaders : ParsedRequestHeaders;
  clientReferenceManifest : ClientReferenceManifest
}.

(** The elements of a [FlightDataPath].  A [FlightDataSegment] is the five
    elements [segment, routerState, seedData | null, head | null, false];
    a path is a run of [segment, parallelRouteKey] pairs in front of one. *)
Inductive FlightDataItem :=
| FSegment (s : Segment)
| FKey (k : string)
| FRouterState (r : FlightRouterState)
| FSeed (d : option SeedData)
| FHead (h : option ReactNode)
| FBool (b : bool).

Abbreviation FlightDataPath := (list FlightDataItem).

(** The arguments of the walk other than [loaderTreeToFilter]. *)
Record WalkArgs := {
  parentParams : Params;
  flightRouterState : option FlightRouterState;
  parentRendered : bool;
  rscPayloadHead : ReactNode;
  injectedCSS : loc;
  injectedJS : loc;
  injectedFontPreloadTags : loc;
  rootLayoutIncluded : bool;
  getMetadataReady : MetadataReady;
  ctx : AppRenderContext;
  preloadCallbacks : PreloadCallbacks
}.

(** The argument object of [createComponentTree]. *)
Record ComponentTreeArgs := {
  ct_ctx : AppRenderContext;
  ct_loaderTree : LoaderTree;
  ct_parentParams : Params;
  ct_injectedCSS : loc;
  ct_injectedJS : loc;
  ct_injectedFontPreloadTags : loc;
  ct_rootLayoutIncluded : bool;
  ct_getMetadataReady : MetadataReady;
  ct_preloadCallbacks : PreloadCallbacks;
  ct_authInterrupts : bool
}.

(** What a call can end with other than a value. *)
Inductive Exception :=
| TypeError
| RendererThrew (e : Thrown).

Inductive Completion (A : Type) :=
| Return (a : A)
| Throw (e : Exception).
#[global] Arguments Return {A} a.
#[global] Arguments Throw {A} e.

(** The trace: an invocation of the walk with the heap it started from, and
    an invocation of the renderer with what it produced. *)
Inductive Event :=
| EvWalk (t : LoaderTree) (a : WalkArgs) (h : Heap)
| EvRender (a : ComponentTreeArgs) (outcome : SeedData + Thrown).

(** The imported functions.  Their code is not part of the walk; the walk
    is stated for any implementation of them.  The renderer reads the sets
    it is handed (it is given the heap) and does not write to them: like the
    walk, [createComponentTree] copies them first. *)
Class Collaborators := {
  matchSegment : Segment -> Segment -> bool;
  canSegmentBeOverridden : Segment -> Segment -> bool;
  addSearchParamsIfPageSegment : Segment -> Query -> Segment;
  createFlightRouterStateFromLoaderTree :
    LoaderTree -> (string -> option DynamicParam) -> Query -> FlightRouterState;
  hasLoadingComponentInTree : LoaderTree -> bool;
  createComponentTree : ComponentTreeArgs -> Heap -> SeedData + Thrown;
  DEFAULT_SEGMENT_KEY : string;
  entryCSSFiles : ClientReferenceManifest -> string -> gset string;
  entryJSFiles : ClientReferenceManifest -> string -> gset string;
  fontFiles : NextFontManifest -> string -> gset string
}.

Context `{CB : Collaborators}.

(** ** The monad: heap of sets, trace, exceptions *)

Definition M (A : Type) : Type := Heap -> Completion A * Heap * list Event.

Definition retM {A} (a : A) : M A := fun h => (Return a, h, []).

Definition bindM {A B} (m : M A) (f : A -> M B) : M B :=
  fun h =>
    match m h with
    | (Return a, h1, tr1) =>
        match f a h1 with
        | (r, h2, tr2) => (r, h2, tr1 ++ tr2)
        end
    | (Throw e, h1, tr1) => (Throw e, h1, tr1)
    end.

(** Entering an invocation of the walk. *)
Definition enterWalk (t : LoaderTree) (a : WalkArgs) : M unit :=
  fun h => (Return tt, h, [EvWalk t a h]).

Definition liftC {A} (c : Completion A) : M A := fun h => (c, h, []).

(** The contents of a set. *)
Definition contents (h : Heap) (l : loc) : gset string := default ∅ (h !! l).

(** [new Set(src)] *)
Definition newSet (src : loc) : M loc :=
  fun h => let l := fresh (dom h) in (Return l, <[l := contents h src]> h, []).

(** Adding every element of [xs] to the set at [l]. *)
Definition addAll (l : loc) (xs : gset string) : M unit :=
  fun h => (Return tt, <[l := contents h l ∪ xs]> h, []).

Declare Scope M_scope.
Delimit Scope M_scope with M.
Notation "'let*' x ':=' m 'in' k" := (bindM m (fun x => k))
  (at level 10, x pattern, m at level 100, k at level 200, only parsing) : M_scope.
Notation "m ;; k" := (bindM m (fun _ => k))
  (at level 100, k at level 200, right associativity, only parsing) : M_scope.

(** ** The values computed at each level *)

(** [typeof layout !== 'undefined'] *)
Definition isLayout (modules : AppDirModules) : bool :=
  bool_decide (is_Some (layout modules)).

Definition rootLayoutAtThisLevel (modules : AppDirModules) (rootLayoutIncluded : bool) : bool :=
  isLayout modules && negb rootLayoutIncluded.

Definition rootLayoutIncludedAtThisLevelOrAbove
    (modules : AppDirModules) (rootLayoutIncluded : bool) : bool :=
  rootLayoutIncluded || rootLayoutAtThisLevel modules rootLayoutIncluded.

(** [segmentParam && segmentParam.value !== null
      ? { ...parentParams, [segmentParam.param]: segmentParam.value }
      : parentParams] *)
Definition currentParams (segmentParam : option DynamicParam) (parentParams : Params) : Params :=
  match segmentParam with
  | Some sp =>
      match value sp with
      | Some v => <[param sp := v]> parentParams
      | None => parentParams
      end
  | None => parentParams
  end.

(** [addSearchParamsIfPageSegment(segmentParam ? segmentParam.treeSegment : segment, query)] *)
Definition actualSegment (segmentParam : option DynamicParam) (segment : string) (q : Query) : Segment :=
  addSearchParamsIfPageSegment
    (match segmentParam with
     | Some sp => treeSegment sp
     | None => SegmentString segment
     end) q.

(** [flightRouterState[3] === 'refetch'] *)
Definition isRefetch (f : FlightRouterState) : bool :=
  bool_decide (frs_refresh f = Some "refetch").

Definition renderComponentsOnThisLevel
    (flightRouterState : option FlightRouterState) (actual : Segment)
    (parallelRoutesKeys : list string) : bool :=
  match flightRouterState with
  | None => true
  | Some f =>
      negb (matchSegment actual (frs_segment f))
      || bool_decide (length parallelRoutesKeys = 0)
      || isRefetch f
  end.

Definition shouldSkipComponentTree (c : AppRenderContext) (loaderTreeToFilter : LoaderTree) : bool :=
  negb (isRoutePPREnabled (experimental (renderOpts c)))
  && (isRouteTreePrefetchRequest (parsedRequestHeaders c)
      || (isPrefetch c
          && negb (bool_decide (is_Some (loading (lt_modules loaderTreeToFilter))))
          && negb (hasLoadingComponentInTree loaderTreeToFilter))).

Definition overriddenSegment
    (flightRouterState : option FlightRouterState) (actual : Segment) : Segment :=
  match flightRouterState with
  | Some f => if canSegmentBeOverridden actual (frs_segment f) then frs_segment f else actual
  | None => actual
  end.

(** A string is truthy when it is not empty; the tuple form of a segment
    is an array and always truthy. *)
Definition truthyString (s : string) : bool := negb (bool_decide (s = "")).

Definition truthySegment (s : Segment) : bool :=
  match s with
  | SegmentString x => truthyString x
  | SegmentTuple _ _ _ => true
  | SegmentUndefined => false
  end.

(** [flightRouterState[1][parallelRouteKey]]: a property read on
    [flightRouterState[1]], which throws when that is [undefined]. *)
Definition parallelRouteEntry (f : FlightRouterState) (parallelRouteKey : string)
    : Completion (option FlightRouterState) :=
  match f with
  | RouterState _ parallelRoutes _ _ _ => Return (getProperty parallelRoutes parallelRouteKey)
  | InheritedProperty _ => Throw TypeError
  end.

(** [subPath[0] === DEFAULT_SEGMENT_KEY] *)
Definition startsWithDefault (subPath : FlightDataPath) : bool :=
  match subPath with
  | FSegment (SegmentString s) :: _ => bool_decide (s = DEFAULT_SEGMENT_KEY)
  | FKey k :: _ => bool_decide (k = DEFAULT_SEGMENT_KEY)
  | _ => false
  end.

(** The condition of the [continue] in the loop over the sub-paths:
    [subPath[0] === DEFAULT_SEGMENT_KEY && flightRouterState &&
     !!flightRouterState[1][parallelRouteKey][0] &&
     flightRouterState[1][parallelRouteKey][3] !== 'refetch'].
    Reading index 0 of a missing entry throws. *)
Definition skipsDefaultRoute
    (subPath : FlightDataPath) (flightRouterState : option FlightRouterState)
    (parallelRouteKey : string) : Completion bool :=
  if startsWithDefault subPath then
    match flightRouterState with
    | None => Return false
    | Some f =>
        match parallelRouteEntry f parallelRouteKey with
        | Throw e => Throw e
        | Return None => Throw TypeError
        | Return (Some child) =>
            Return (truthySegment (frs_segment child) && negb (isRefetch child))
        end
    end
  else Return false.

(** The loop [for (const subPath of subPaths)], pushing onto [paths]. *)
Fixpoint pushSubPaths
    (actual : Segment) (flightRouterState : option FlightRouterState)
    (parallelRouteKey : string) (subPaths : list FlightDataPath)
    (paths : list FlightDataPath) : Completion (list FlightDataPath) :=
  match subPaths with
  | [] => Return paths
  | subPath :: rest =>
      match skipsDefaultRoute subPath flightRouterState parallelRouteKey with
      | Throw e => Throw e
      | Return true =>
          pushSubPaths actual flightRouterState parallelRouteKey rest paths
      | Return false =>
          pushSubPaths actual flightRouterState parallelRouteKey rest
            (paths ++ [FSegment actual :: FKey parallelRouteKey :: subPath])
      end
  end.

(** [await createComponentTree(args)] *)
Definition awaitComponentTree (args : ComponentTreeArgs) : M SeedData :=
  fun h =>
    (match createComponentTree args h with
     | inl seedData => Return seedData
     | inr e => Throw (RendererThrew e)
     end, h, [EvRender args (createComponentTree args h)]).

(** [flightRouterState && flightRouterState[1][parallelRouteKey]] *)
Definition readChildRouterState
    (flightRouterState : option FlightRouterState) (parallelRouteKey : string)
    : Completion (option FlightRouterState) :=
  match flightRouterState with
  | Some f => parallelRouteEntry f parallelRouteKey
  | None => Return None
  end.

(** The value of that expression, where it has one. *)
Definition childRouterState
    (flightRouterState : option FlightRouterState) (parallelRouteKey : string)
    : option FlightRouterState :=
  match readChildRouterState flightRouterState parallelRouteKey with
  | Return child => child
  | Throw _ => None
  end.

(** [layout?.[1]], kept only when truthy (the test [if (layoutPath)]). *)
Definition layoutPath (modules : AppDirModules) : option string :=
  match layout modules with
  | Some m => if truthyString (filePath m) then Some (filePath m) else None
  | None => None
  end.

(** Modelled from the spec: [getLinkAndScriptTags] and [getPreloadableFonts]
    are imported; the specification has them append the assets of a layout
    into the sets they are given.  [entryCSSFiles], [entryJSFiles] and
    [fontFiles] stand for what the manifests list for a layout path. *)
Definition getLinkAndScriptTags
    (manifest : ClientReferenceManifest) (path : string) (css js : loc) : M unit :=
  (addAll css (entryCSSFiles manifest path) ;;
   addAll js (entryJSFiles manifest path))%M.

Definition getPreloadableFonts
    (manifest : NextFontManifest) (path : string) (fonts : loc) : M unit :=
  addAll fonts (fontFiles manifest path).

(** The arguments of the recursive call for one parallel route; the walk
    builds them after [readChildRouterState] returned. *)
Definition childArgs
    (a : WalkArgs) (modules : AppDirModules) (segmentParam : option DynamicParam)
    (renderHere : bool) (css js fonts : loc) (parallelRouteKey : string) : WalkArgs :=
  {| parentParams := currentParams segmentParam (parentParams a);
     flightRouterState := childRouterState (flightRouterState a) parallelRouteKey;
     parentRendered := parentRendered a || renderHere;
     rscPayloadHead := rscPayloadHead a;
     injectedCSS := css;
     injectedJS := js;
     injectedFontPreloadTags := fonts;
     rootLayoutIncluded :=
       rootLayoutIncludedAtThisLevelOrAbove modules (rootLayoutIncluded a);
     getMetadataReady := getMetadataReady a;
     ctx := ctx a;
     preloadCallbacks := preloadCallbacks a |}.

(** The argument object built for [createComponentTree]. *)
Definition componentTreeArgs
    (a : WalkArgs) (loaderTreeToFilter : LoaderTree) (segmentParam : option DynamicParam)
    : ComponentTreeArgs :=
  {| ct_ctx := ctx a;
     ct_loaderTree := loaderTreeToFilter;
     ct_parentParams := currentParams segmentParam (parentParams a);
     ct_injectedCSS := injectedCSS a;
     ct_injectedJS := injectedJS a;
     ct_injectedFontPreloadTags := injectedFontPreloadTags a;
     ct_rootLayoutIncluded := rootLayoutIncluded a;
     ct_getMetadataReady := getMetadataReady a;
     ct_preloadCallbacks := preloadCallbacks a;
     ct_authInterrupts := authInterrupts (experimental (renderOpts (ctx a))) |}.

(** The block under [if (!parentRendered && renderComponentsOnThisLevel)]. *)
Definition renderFromThisLevel
    (loaderTreeToFilter : LoaderTree) (a : WalkArgs)
    (segmentParam : option DynamicParam) (actual : Segment) : M (list FlightDataPath) :=
  let overridden := overriddenSegment (flightRouterState a) actual in
  let routerState :=
    createFlightRouterStateFromLoaderTree loaderTreeToFilter
      (getDynamicParamFromSegment (ctx a)) (query (ctx a)) in
  if shouldSkipComponentTree (ctx a) loaderTreeToFilter then
    retM [[FSegment overridden; FRouterState routerState; FSeed None; FHead None;
           FBool false]]
  else
    (let* seedData := awaitComponentTree (componentTreeArgs a loaderTreeToFilter segmentParam) in
     retM [[FSegment overridden; FRouterState routerState; FSeed (Some seedData);
            FHead (Some (rscPayloadHead a)); FBool false]])%M.

(** The three copies made when rendering does not start at this level, with
    the assets of this level's layout added to them. *)
Definition setsWithCurrentLayout (a : WalkArgs) (modules : AppDirModules)
    : M (loc * loc * loc) :=
  (let* css := newSet (injectedCSS a) in
   let* js := newSet (injectedJS a) in
   let* fonts := newSet (injectedFontPreloadTags a) in
   match layoutPath modules with
   | Some path =>
       getLinkAndScriptTags (clientReferenceManifest (ctx a)) path css js ;;
       getPreloadableFonts (nextFontManifest (renderOpts (ctx a))) path fonts
   | None => retM tt
   end ;;
   retM (css, js, fonts))%M.

(** ** The walk *)

Fixpoint walkTreeWithFlightRouterState
    (loaderTreeToFilter : LoaderTree) (a : WalkArgs) {struct loaderTreeToFilter}
    : M (list FlightDataPath) :=
  match loaderTreeToFilter with
  | LoaderTreeNode segment parallelRoutes modules =>
      let parallelRoutesKeys := parallelRoutes.*1 in
      let segmentParam := getDynamicParamFromSegment (ctx a) segment in
      let actual := actualSegment segmentParam segment (query (ctx a)) in
      let renderHere :=
        renderComponentsOnThisLevel (flightRouterState a) actual parallelRoutesKeys in
      (enterWalk loaderTreeToFilter a ;;
       if negb (parentRendered a) && renderHere then
         renderFromThisLevel loaderTreeToFilter a segmentParam actual
       else
         let* (css, js, fonts) := setsWithCurrentLayout a modules in
         (fix walkParallelRoutes
              (routes : list (string * LoaderTree)) (paths : list FlightDataPath)
              {struct routes} : M (list FlightDataPath) :=
            match routes with
            | [] => retM paths
            | (parallelRouteKey, parallelRoute) :: rest =>
                liftC (readChildRouterState (flightRouterState a) parallelRouteKey) ;;
                let* subPaths :=
                  walkTreeWithFlightRouterState parallelRoute
                    (childArgs a modules segmentParam renderHere css js fonts
                       parallelRouteKey) in
                let* paths' :=
                  liftC (pushSubPaths actual (flightRouterState a) parallelRouteKey
                           subPaths paths) in
                walkParallelRoutes rest paths'
            end) parallelRoutes [])%M
  end.

(** The loop [for (const parallelRouteKey of parallelRoutesKeys)] of one
    level, with the values of that level. *)
Definition walkParallelRoutes
    (a : WalkArgs) (modules : AppDirModules) (segmentParam : option DynamicParam)
    (actual : Segment) (renderHere : bool) (css js fonts : loc)
    : list (string * LoaderTree) -> list FlightDataPath -> M (list FlightDataPath) :=
  fix walkParallelRoutes routes paths {struct routes} :=
    match routes with
    | [] => retM paths
    | (parallelRouteKey, parallelRoute) :: rest =>
        (liftC (readChildRouterState (flightRouterState a) parallelRouteKey) ;;
         let* subPaths :=
           walkTreeWithFlightRouterState parallelRoute
             (childArgs a modules segmentParam renderHere css js fonts parallelRouteKey) in
         let* paths' :=
           liftC (pushSubPaths actual (flightRouterState a) parallelRouteKey
                    subPaths paths) in
         walkParallelRoutes rest paths')%M
    end.

(** What a run leaves: its completion, the heap and the trace. *)
Definition completion {A} (out : Completion A * Heap * list Event) : Completion A := out.1.1.
Definition heapAfter {A} (out : Completion A * Heap * list Event) : Heap := out.1.2.
Definition trace {A} (out : Completion A * Heap * list Event) : list Event := out.2.

(** The values of a level, as functions of the call. *)
Definition segmentParamOf (t : LoaderTree) (a : WalkArgs) : option DynamicParam :=
  getDynamicParamFromSegment (ctx a) (lt_segment t).

Definition actualSegmentOf (t : LoaderTree) (a : WalkArgs) : Segment :=
  actualSegment (segmentParamOf t a) (lt_segment t) (query (ctx a)).

Definition rendersHere (t : LoaderTree) (a : WalkArgs) : bool :=
  renderComponentsOnThisLevel (flightRouterState a) (actualSegmentOf t a)
    (lt_parallelRoutes t).*1.

(** The test [!parentRendered && renderComponentsOnThisLevel]. *)
Definition startsRendering (t : LoaderTree) (a : WalkArgs) : bool :=
  negb (parentRendered a) && rendersHere t a.

(** The code after the block [if (!parentRendered && renderComponentsOnThisLevel)]:
    the copies of the sets, then the loop over the parallel routes. *)
Definition descendFromThisLevel (t : LoaderTree) (a : WalkArgs) : M (list FlightDataPath) :=
  (let* (css, js, fonts) := setsWithCurrentLayout a (lt_modules t) in
   walkParallelRoutes a (lt_modules t) (segmentParamOf t a) (actualSegmentOf t a)
     (rendersHere t a) css js fonts (lt_parallelRoutes t) [])%M.

(** The one [FlightDataSegment] of a level that renders. *)
Definition flightDataSegment
    (t : LoaderTree) (a : WalkArgs) (seedData : option SeedData) (head : option ReactNode)
    : FlightDataPath :=
  [FSegment (overriddenSegment (flightRouterState a) (actualSegmentOf t a));
   FRouterState
     (createFlightRouterStateFromLoaderTree t (getDynamicParamFromSegment (ctx a))
        (query (ctx a)));
   FSeed seedData; FHead head; FBool false].

(** The assets of the layout of a level; none without a layout path. *)
Definition layoutCSS (a : WalkArgs) (modules : AppDirModules) : gset string :=
  match layoutPath modules with
  | Some path => entryCSSFiles (clientReferenceManifest (ctx a)) path
  | None => ∅
  end.

Definition layoutJS (a : WalkArgs) (modules : AppDirModules) : gset string :=
  match layoutPath modules with
  | Some path => entryJSFiles (clientReferenceManifest (ctx a)) path
  | None => ∅
  end.

Definition layoutFonts (a : WalkArgs) (modules : AppDirModules) : gset string :=
  match layoutPath modules with
  | Some path => fontFiles (nextFontManifest (renderOpts (ctx a))) path
  | None => ∅
  end.

(** [h'] has every set of [h], unchanged. *)
Definition extends (h h' : Heap) : Prop :=
  ∀ l, l ∈ dom h → h' !! l = h !! l.

(** The three sets a call is given exist. *)
Definition allocated (a : WalkArgs) (h : Heap) : Prop :=
  injectedCSS a ∈ dom h ∧ injectedJS a ∈ dom h ∧ injectedFontPreloadTags a ∈ dom h.

(** An event of a trace in which every invocation of the walk satisfies
    [I], and every invocation of the renderer is made by such an invocation,
    at a level where rendering starts, with the arguments built there. *)
Definition eventSatisfies (I : LoaderTree → WalkArgs → Heap → Prop) (e : Event) : Prop :=
  match e with
  | EvWalk t a h => I t a h
  | EvRender args outcome =>
      ∃ t a h, I t a h ∧ startsRendering t a = true
               ∧ args = componentTreeArgs a t (segmentParamOf t a)
               ∧ outcome = createComponentTree args h
  end.



(** The reads [flightRouterState[1][parallelRouteKey]] of such a walk: each
    is made on a router-state tuple or skipped for want of a router state,
    at no level with parallel routes is the router state a property
    inherited from [Object.prototype]. *)
Fixpoint readsRouterStateTuples (t : LoaderTree) (frs : option FlightRouterState) : bool :=
  match t with
  | LoaderTreeNode _ routes _ =>
      (fix reads (l : list (string * LoaderTree)) : bool :=
         match l with
         | [] => true
         | (key, route) :: rest =>
             match readChildRouterState frs key with
             | Return child => readsRouterStateTuples route child && reads rest
             | Throw _ => false
             end
         end) routes
  end.


(** [rootLayoutIncluded] as an invocation received it. *)
Definition eventRootLayoutIncluded (e : Event) : bool :=
  match e with
  | EvWalk _ a _ => rootLayoutIncluded a
  | EvRender args _ => ct_rootLayoutIncluded args
  end.

(** The params an invocation received. *)
Definition eventParams (e : Event) : Params :=
  match e with
  | EvWalk _ a _ => parentParams a
  | EvRender args _ => ct_parentParams args
  end.

(** The params after the levels with the given segments, from the outermost
    to the innermost. *)
Definition paramsAlong
    (resolve : string → option DynamicParam) (segments : list string) (params : Params)
    : Params :=
  foldl (λ acc segment, currentParams (resolve segment) acc) params segments.

(** The sub-paths the specification has dropped: the first element is the
    default segment, there is a router state, its entry for the key has a
    non-empty segment, and that entry is not marked ['refetch']. *)
Definition isSuppressedDefault
    (frs : option FlightRouterState) (key : string) (subPath : FlightDataPath) : bool :=
  startsWithDefault subPath
  && match frs with
     | Some f =>
         match frs_parallelRoutes f !! key with
         | Some child => truthySegment (frs_segment child) && negb (isRefetch child)
         | None => false
         end
     | None => false
     end.

(** What remains of the sub-paths of one parallel route, each behind the
    segment of the level and the key. *)
Definition keptSubPaths
    (actual : Segment) (frs : option FlightRouterState) (key : string)
    (subPaths : list FlightDataPath) : list FlightDataPath :=
  (λ subPath, FSegment actual :: FKey key :: subPath)
    <$> filter (λ subPath, isSuppressedDefault frs key subPath = false) subPaths.

(** The invocations of the walk in a trace, in order. *)
Definition walkCalls (tr : list Event) : list (LoaderTree * WalkArgs) :=
  omap (λ e, match e with
             | EvWalk t a _ => Some (t, a)
             | EvRender _ _ => None
             end) tr.

(** No two parallel routes of [t] are walked with the same set. *)
Definition siblingsReceiveDistinctSets (t : LoaderTree) (tr : list Event) : Prop :=
  ∀ key1 route1 a1 key2 route2 a2,
    (key1, route1) ∈ lt_parallelRoutes t →
    (key2, route2) ∈ lt_parallelRoutes t →
    key1 ≠ key2 →
    (route1, a1) ∈ walkCalls tr →
    (route2, a2) ∈ walkCalls tr →
    injectedCSS a1 ≠ injectedCSS a2
    ∧ injectedJS a1 ≠ injectedJS a2
    ∧ injectedFontPreloadTags a1 ≠ injectedFontPreloadTags a2.

(** The sets an invocation is given hold at least [css], [js] and [fonts]
    when it starts. *)
Definition seesAssets (css js fonts : gset string) (e : Event) : Prop :=
  match e with
  | EvWalk _ a h =>
      css ⊆ contents h (injectedCSS a)
      ∧ js ⊆ contents h (injectedJS a)
      ∧ fonts ⊆ contents h (injectedFontPreloadTags a)
  | EvRender args outcome =>
      ∃ h, outcome = createComponentTree args h
           ∧ css ⊆ contents h (ct_injectedCSS args)
           ∧ js ⊆ contents h (ct_injectedJS args)
           ∧ fonts ⊆ contents h (ct_injectedFontPreloadTags args)
  end.

(** An invocation of the renderer that threw. *)
Definition failedRender (e : Event) : Prop :=
  match e with
  | EvRender _ (inr _) => True
  | _ => False
  end.

(** A run in which the renderer threw at most once: if the run ends with what
    the renderer threw, that invocation is the last event and the only one
    that threw; otherwise no invocation threw. *)
Definition rendererFailureIsFinal {A} (out : Completion A * Heap * list Event) : Prop :=
  match completion out with
  | Throw (RendererThrew e) =>
      ∃ pre args, trace out = pre ++ [EvRender args (inr e)]
                  ∧ Forall (λ ev, ¬ failedRender ev) pre
  | _ => Forall (λ ev, ¬ failedRender ev) (trace out)
  end.

End Model.

Abbreviation FlightDataPath := (list FlightDataItem).

(** ** A concrete host, for worked examples *)

Module Demo.

#[export] Instance types : HostTypes := {|
  Query := unit;
  ClientReferenceManifest := unit;
  NextFontManifest := unit;
  SeedData := string;
  ReactNode := string;
  Thrown := string;
  MetadataReady := unit;
  PreloadCallbacks := unit
|}.

(** Strings match when equal, tuples when parameter and value agree. *)
Definition sameSegment (existing seg : Segment) : bool :=
  match existing, seg with
  | SegmentString x, SegmentString y => bool_decide (x = y)
  | SegmentTuple p v _, SegmentTuple p' v' _ => bool_decide (p = p') && bool_decide (v = v')
  | _, _ => false
  end.

Fixpoint routerStateOf (t : LoaderTree) : FlightRouterState :=
  match t with
  | LoaderTreeNode segment routes _ =>
      RouterState (SegmentString segment)
        (list_to_map
           ((fix entries (l : list (string * LoaderTree)) :=
               match l with
               | [] => []
               | (k, c) :: rest => (k, routerStateOf c) :: entries rest
               end) routes))
        None None None
  end.

Fixpoint hasLoading (t : LoaderTree) : bool :=
  match t with
  | LoaderTreeNode _ routes modules =>
      bool_decide (is_Some (loading modules))
      || (fix some (l : list (string * LoaderTree)) :=
            match l with
            | [] => false
            | (_, c) :: rest => hasLoading c || some rest
            end) routes
  end.

(** The renderer fails on a slice whose segment is ["boom"]. *)
Definition render (args : ComponentTreeArgs) (h : Heap) : string + string :=
  if bool_decide (lt_segment (ct_loaderTree args) = "boom")
  then inr "NEXT_REDIRECT"
  else inl ("seed:" +:+ lt_segment (ct_loaderTree args)).

#[export] Instance collaborators : Collaborators := {|
  matchSegment := sameSegment;
  canSegmentBeOverridden := fun _ _ => false;
  addSearchParamsIfPageSegment := fun s _ => s;
  createFlightRouterStateFromLoaderTree := fun t _ _ => routerStateOf t;
  hasLoadingComponentInTree := hasLoading;
  createComponentTree := render;
  DEFAULT_SEGMENT_KEY := "__DEFAULT__";
  entryCSSFiles := fun _ path => {[ path +:+ ".css" ]};
  entryJSFiles := fun _ path => {[ path +:+ ".js" ]};
  fontFiles := fun _ path => {[ path +:+ ".woff2" ]}
|}.

Definition dyn (p v : string) : option DynamicParam :=
  Some {| param := p; value := Some (ParamString v);
          treeSegment := SegmentTuple p v "d"; type := "dynamic" |}.

Definition resolve (segment : string) : option DynamicParam :=
  if bool_decide (segment = "[x]") then dyn "x" "1"
  else if bool_decide (segment = "[y]") then dyn "y" "2"
  else if bool_decide (segment = "[z]") then dyn "z" "3"
  else if bool_decide (segment = "[[...opt]]") then
    Some {| param := "opt"; value := None;
            treeSegment := SegmentTuple "opt" "" "oc"; type := "optional-catchall" |}
  else None.

Definition context (prefetch : bool) : AppRenderContext := {|
  renderOpts := {| nextFontManifest := tt;
                   experimental := {| isRoutePPREnabled := false;
                                      authInterrupts := false |} |};
  query := tt;
  isPrefetch := prefetch;
  getDynamicParamFromSegment := resolve;
  parsedRequestHeaders := {| isRouteTreePrefetchRequest := false |};
  clientReferenceManifest := tt
|}.

(** Three empty sets at locations 1, 2 and 3. *)
Definition heap0 : Heap := {[ 1%positive := ∅; 2%positive := ∅; 3%positive := ∅ ]}.

Definition args (prefetch : bool) (frs : option FlightRouterState) (rendered : bool)
    : WalkArgs := {|
  parentParams := ∅;
  flightRouterState := frs;
  parentRendered := rendered;
  rscPayloadHead := "head";
  injectedCSS := 1%positive;
  injectedJS := 2%positive;
  injectedFontPreloadTags := 3%positive;
  rootLayoutIncluded := false;
  getMetadataReady := tt;
  ctx := context prefetch;
  preloadCallbacks := tt
|}.

Definition noModules : AppDirModules :=
  {| layout := None; loading := None; page := None |}.

Definition withLayout (path : string) : AppDirModules :=
  {| layout := Some {| filePath := path |}; loading := None; page := None |}.

Definition leaf (segment : string) : LoaderTree :=
  LoaderTreeNode segment [] noModules.

(** [/dash] with the slots [children] and [x]; the slot [x] has no match
    for the route and holds the default segment. *)
Definition treeWithDefaultSlot : LoaderTree :=
  LoaderTreeNode "dash"
    [("children", leaf "settings"); ("x", leaf "__DEFAULT__")]
    (withLayout "dash/layout").

(** A client state for [/dash] that has the slot [children] only. *)
Definition stateWithoutSlot : FlightRouterState :=
  RouterState (SegmentString "dash")
    {[ "children" := RouterState (SegmentString "other") ∅ None None None ]}
    None None None.

(** The same client state with the slot [x], holding the default segment. *)
Definition stateWithSlot : FlightRouterState :=
  RouterState (SegmentString "dash")
    {[ "children" := RouterState (SegmentString "other") ∅ None None None;
       "x" := RouterState (SegmentString "__DEFAULT__") ∅ None None None ]}
    None None None.

(** The path to the page [settings] of [/dash], rendered. *)
Definition settingsPath : FlightDataPath :=
  [FSegment (SegmentString "dash"); FKey "children";
   FSegment (SegmentString "settings");
   FRouterState (routerStateOf (leaf "settings"));
   FSeed (Some "seed:settings"); FHead (Some "head"); FBool false].

(** Two parallel branches, each with a layout of its own, under a layout. *)
Definition branchA : LoaderTree :=
  LoaderTreeNode "a" [("children", leaf "pageA")] (withLayout "a/layout").

Definition branchB : LoaderTree :=
  LoaderTreeNode "b" [("children", leaf "pageB")] (withLayout "b/layout").

Definition twoBranches : LoaderTree :=
  LoaderTreeNode "dash" [("children", branchA); ("x", branchB)] (withLayout "dash/layout").

Definition stateTwoBranches : FlightRouterState :=
  RouterState (SegmentString "dash")
    {[ "children" :=
         RouterState (SegmentString "a")
           {[ "children" := RouterState (SegmentString "old") ∅ None None None ]}
           None None None;
       "x" :=
         RouterState (SegmentString "b")
           {[ "children" := RouterState (SegmentString "old") ∅ None None None ]}
           None None None ]}
    None None None.

(** The set of CSS at location 1 already holds the stylesheet of a layout
    above the slice. *)
Definition heap1 : Heap :=
  {[ 1%positive := {[ "root.css" ]}; 2%positive := ∅; 3%positive := ∅ ]}.

Definition argsTwoBranches : WalkArgs := args false (Some stateTwoBranches) false.

Definition argsNoState : WalkArgs := args false None false.
Definition argsPrefetch : WalkArgs := args true None false.
Definition argsWithSlot : WalkArgs := args false (Some stateWithSlot) false.
Definition argsWithoutSlot : WalkArgs := args false (Some stateWithoutSlot) false.

(** What the two branches are walked with: the copies at 4, 5 and 6. *)
Definition argsBranch (key : string) : WalkArgs :=
  childArgs argsTwoBranches (withLayout "dash/layout") None false
    4%positive 5%positive 6%positive key.

(** [/a/[x]/[y]/[z]] and a client state that matches it. *)
Definition nestedDynamic : LoaderTree :=
  LoaderTreeNode "a"
    [("children",
      LoaderTreeNode "[x]"
        [("children", LoaderTreeNode "[y]" [("children", leaf "[z]")] noModules)]
        noModules)]
    noModules.

Definition stateNested : FlightRouterState :=
  RouterState (SegmentString "a")
    {[ "children" :=
         RouterState (SegmentTuple "x" "1" "d")
           {[ "children" :=
                RouterState (SegmentTuple "y" "2" "d")
                  {[ "children" := RouterState (SegmentTuple "z" "3" "d") ∅ None None None ]}
                  None None None ]}
           None None None ]}
    None None None.

Definition argsNested : WalkArgs := args false (Some stateNested) false.

(** The arguments of the renderer at [[z]]. *)
Definition renderArgsZ : ComponentTreeArgs :=
  let a1 := childArgs argsNested noModules None false 4%positive 5%positive 6%positive
              "children" in
  let a2 := childArgs a1 noModules (resolve "[x]") false 7%positive 8%positive 9%positive
              "children" in
  let a3 := childArgs a2 noModules (resolve "[y]") false 10%positive 11%positive
              12%positive "children" in
  componentTreeArgs a3 (leaf "[z]") (resolve "[z]").

(** A page on which the renderer throws, beside one on which it does not. *)
Definition treeWithFailingPage : LoaderTree :=
  LoaderTreeNode "dash" [("children", leaf "boom"); ("x", leaf "settings")]
    (withLayout "dash/layout").

Definition renderArgsBoom : ComponentTreeArgs :=
  componentTreeArgs
    (childArgs argsWithSlot (withLayout "dash/layout") None
       false 4%positive 5%positive 6%positive "children")
    (leaf "boom") None.

(** Arguments that say a root layout was seen above. *)
Definition argsBelowRootLayout : WalkArgs := {|
  parentParams := ∅;
  flightRouterState := Some stateTwoBranches;
  parentRendered := false;
  rscPayloadHead := "head";
  injectedCSS := 1%positive;
  injectedJS := 2%positive;
  injectedFontPreloadTags := 3%positive;
  rootLayoutIncluded := true;
  getMetadataReady := tt;
  ctx := context false;
  preloadCallbacks := tt
|}.

End Demo.

(** ** More of the walk: what a run returns and what it reaches *)

Section WalkResults.
Context `{CB : Collaborators}.

(** [Lineage t lineage n]: [n] is a node of [t]; [lineage] holds the levels
    from [t] down to the parent of [n], each with the key of the parallel
    route taken there. *)
Inductive Lineage : LoaderTree → list (LoaderTree * string) → LoaderTree → Prop :=
| Lineage_here t : Lineage t [] t
| Lineage_below t key route lineage n :
    (key, route) ∈ lt_parallelRoutes t →
    Lineage route lineage n →
    Lineage t ((t, key) :: lineage) n.

(** The router state reached from [frs] through the keys, as the recursive
    calls index it. *)
Definition routerStateAt (frs : option FlightRouterState) (keys : list string)
    : option FlightRouterState :=
  foldl childRouterState frs keys.

(** The pairs [segment, parallelRouteKey] the levels of a lineage put in
    front of a sub-path. *)
Definition pathPrefix (a : WalkArgs) (lineage : list (LoaderTree * string))
    : FlightDataPath :=
  concat ((λ tk : LoaderTree * string,
             [FSegment (actualSegmentOf tk.1 a); FKey tk.2]) <$> lineage).

(** The [FlightDataSegment] of the node [n] reached by [lineage] in a walk
    called with [a]. *)
Definition flightDataSegmentAt
    (a : WalkArgs) (lineage : list (LoaderTree * string)) (n : LoaderTree)
    (seedData : option SeedData) (head : option ReactNode) : FlightDataPath :=
  [FSegment
     (overriddenSegment (routerStateAt (flightRouterState a) lineage.*2)
        (actualSegmentOf n a));
   FRouterState
     (createFlightRouterStateFromLoaderTree n (getDynamicParamFromSegment (ctx a))
        (query (ctx a)));
   FSeed seedData; FHead head; FBool false].

(** A path of the result of a walk on [t] called with [a], with trace [tr]:
    it leads to a node of [t] and ends with the segment of that node, without
    seed data and head where the component tree is skipped, and otherwise
    with the seed data of an invocation of the renderer on that node and the
    head of the call. *)
Definition isPathOf (t : LoaderTree) (a : WalkArgs) (tr : list Event)
    (path : FlightDataPath) : Prop :=
  ∃ lineage n seedData head,
    Lineage t lineage n
    ∧ path = pathPrefix a lineage ++ flightDataSegmentAt a lineage n seedData head
    ∧ ((shouldSkipComponentTree (ctx a) n = true ∧ seedData = None ∧ head = None)
       ∨ (shouldSkipComponentTree (ctx a) n = false
          ∧ ∃ seed args,
              seedData = Some seed ∧ head = Some (rscPayloadHead a)
              ∧ ct_loaderTree args = n
              ∧ EvRender args (inl seed) ∈ tr)).

(** The router state has an entry for every parallel route of the loader
    tree, at every level. *)
Fixpoint covers (t : LoaderTree) (f : FlightRouterState) {struct t} : bool :=
  match t with
  | LoaderTreeNode _ routes _ =>
      (fix coversRoutes (l : list (string * LoaderTree)) : bool :=
         match l with
         | [] => true
         | (key, route) :: rest =>
             match frs_parallelRoutes f !! key with
             | Some child => covers route child
             | None => false
             end && coversRoutes rest
         end) routes
  end.

(** The invocations of the renderer in a trace, in order. *)
Definition renderCalls (tr : list Event) : list ComponentTreeArgs :=
  omap (λ e, match e with
             | EvWalk _ _ _ => None
             | EvRender args _ => Some args
             end) tr.

(** The assets of the layouts of the levels of a lineage. *)
Definition cssAlong (a : WalkArgs) (lineage : list (LoaderTree * string)) : gset string :=
  ⋃ ((λ tk : LoaderTree * string, layoutCSS a (lt_modules tk.1)) <$> lineage).

Definition jsAlong (a : WalkArgs) (lineage : list (LoaderTree * string)) : gset string :=
  ⋃ ((λ tk : LoaderTree * string, layoutJS a (lt_modules tk.1)) <$> lineage).

Definition fontsAlong (a : WalkArgs) (lineage : list (LoaderTree * string)) : gset string :=
  ⋃ ((λ tk : LoaderTree * string, layoutFonts a (lt_modules tk.1)) <$> lineage).

(** What an invocation was given besides the slice, the params, the router
    state and the sets: the context, the head, the metadata signal and the
    preload callbacks. *)
Definition eventCarries (a : WalkArgs) (e : Event) : Prop :=
  match e with
  | EvWalk _ a' _ =>
      ctx a' = ctx a ∧ rscPayloadHead a' = rscPayloadHead a
      ∧ getMetadataReady a' = getMetadataReady a
      ∧ preloadCallbacks a' = preloadCallbacks a
  | EvRender args _ =>
      ct_ctx args = ctx a
      ∧ ct_getMetadataReady args = getMetadataReady a
      ∧ ct_preloadCallbacks args = preloadCallbacks a
      ∧ ct_authInterrupts args = authInterrupts (experimental (renderOpts (ctx a)))
  end.

(** ** The invocations of a run, by position *)

(** The invocation that the call [(t, a, h)] makes for its parallel route
    number [i], with the heap that invocation starts from: the call does not
    render, the loop has gone through the routes before number [i], and the
    read of the router state's entry for the key returned.  There is none
    when the loop does not get that far. *)
Definition callOnParallelRoute (t : LoaderTree) (a : WalkArgs) (h : Heap) (i : nat)
    : option (LoaderTree * WalkArgs * Heap) :=
  if startsRendering t a then None
  else
    match setsWithCurrentLayout a (lt_modules t) h, lt_parallelRoutes t !! i with
    | (Return (css, js, fonts), h1, _), Some (key, route) =>
        match walkParallelRoutes a (lt_modules t) (segmentParamOf t a)
                (actualSegmentOf t a) (rendersHere t a) css js fonts
                (take i (lt_parallelRoutes t)) [] h1,
              readChildRouterState (flightRouterState a) key with
        | (Return _, hk, _), Return _ =>
            Some (route,
                  childArgs a (lt_modules t) (segmentParamOf t a) (rendersHere t a)
                    css js fonts key,
                  hk)
        | _, _ => None
        end
    | _, _ => None
    end.

(** The invocation at a position: the position of the call itself is [[]],
    and [i :: position] is [position] below its parallel route number [i]. *)
Fixpoint callAt (position : list nat) (t : LoaderTree) (a : WalkArgs) (h : Heap)
    : option (LoaderTree * WalkArgs * Heap) :=
  match position with
  | [] => Some (t, a, h)
  | i :: below =>
      match callOnParallelRoute t a h i with
      | Some (route, a', hk) => callAt below route a' hk
      | None => None
      end
  end.

(** The levels above a position, from the outermost, each with the key of
    the parallel route taken there. *)
Fixpoint lineageAt (position : list nat) (t : LoaderTree) : list (LoaderTree * string) :=
  match position with
  | [] => []
  | i :: below =>
      match lt_parallelRoutes t !! i with
      | Some (key, route) => (t, key) :: lineageAt below route
      | None => []
      end
  end.

(** The segments of these levels. *)
Definition segmentsAbove (position : list nat) (t : LoaderTree) : list string :=
  (λ tk : LoaderTree * string, lt_segment tk.1) <$> lineageAt position t.

(** The arguments the invocation [(t, a, h)] hands to the renderer. *)
Definition rendererArgs (c : LoaderTree * WalkArgs * Heap) : ComponentTreeArgs :=
  componentTreeArgs c.1.2 c.1.1 (segmentParamOf c.1.1 c.1.2).

(** The invocation of the renderer that the invocation [c] of the walk
    makes, when it makes one. *)
Definition rendererEvent (c : LoaderTree * WalkArgs * Heap) : Event :=
  EvRender (rendererArgs c) (createComponentTree (rendererArgs c) c.2).

(** An invocation of the walk that invokes the renderer. *)
Definition invokesRenderer (c : LoaderTree * WalkArgs * Heap) : bool :=
  startsRendering c.1.1 c.1.2 && negb (shouldSkipComponentTree (ctx c.1.2) c.1.1).

(** The specification's reading of the params of the renderer: whatever a
    level above the node binds is bound, with that value, in the params the
    renderer is given. *)
Definition rendererHasAncestorBindings (t : LoaderTree) (a : WalkArgs) (h : Heap) : Prop :=
  ∀ position c i segment d v,
    callAt position t a h = Some c →
    invokesRenderer c = true →
    segmentsAbove position t !! i = Some segment →
    getDynamicParamFromSegment (ctx a) segment = Some d →
    value d = Some v →
    ct_parentParams (rendererArgs c) !! param d = Some v.

(** The invocations of the walk in the trace of the call [(t, a, h)] are
    those at pairwise different positions: none is made twice. *)
Definition visitsEachPositionOnce (t : LoaderTree) (a : WalkArgs) (h : Heap)
    (tr : list Event) : Prop :=
  ∃ positions : list (list nat),
    NoDup positions
    ∧ Forall2 (λ position ta, ∃ c, callAt position t a h = Some c ∧ ta = c.1)
        positions (walkCalls tr).

(** In a trace, every invocation of the renderer comes directly after the
    invocation of the walk that made it, with the arguments built there and
    the heap that invocation started from. *)
Fixpoint rendersFollowWalks (tr : list Event) : Prop :=
  match tr with
  | [] => True
  | EvWalk t a h :: rest =>
      match rest with
      | EvRender args outcome :: rest' =>
          EvRender args outcome = rendererEvent (t, a, h)
          ∧ invokesRenderer (t, a, h) = true
          ∧ rendersFollowWalks rest'
      | _ => rendersFollowWalks rest
      end
  | EvRender _ _ :: _ => False
  end.

End WalkResults.

(** ** redirect-error.ts *)

Module RedirectError.

(** A value of type [unknown].  Of a value that is neither a string nor an
    object only the kind is read. *)
Inductive JsValue :=
| VUndefined
| VNull
| VBoolean (b : bool)
| VNumber
| VString (s : string)
| VFunction
| VObject (props : gmap string JsValue).

Definition REDIRECT_ERROR_CODE : string := "NEXT_REDIRECT".

(** The character [;]. *)
Definition semicolon : Ascii.ascii := Ascii.ascii_of_nat 59.

(** [enum RedirectType { push = 'push', replace = 'replace' }] *)
Inductive RedirectType := push | replace.

Definition RedirectType_value (t : RedirectType) : string :=
  match t with
  | push => "push"
  | replace => "replace"
  end.

(** The numbers, which the code only converts to and tests.  [Number] on a
    string, [isNaN] and the test [statusCode in RedirectStatusCode] (the enum
    is imported) are taken as given. *)
Class JsNumbers := {
  JsNumber : Type;
  NaN : JsNumber;
  StringToNumber : string → JsNumber;
  isNaN : JsNumber → bool;
  isNaN_NaN : isNaN NaN = true;
  inRedirectStatusCode : JsNumber → bool
}.

(** [s.split(sep)] for a separator of one character. *)
Fixpoint split (sep : Ascii.ascii) (s : string) : list string :=
  match s with
  | EmptyString => [EmptyString]
  | String c rest =>
      if decide (c = sep) then EmptyString :: split sep rest
      else match split sep rest with
           | piece :: pieces => String c piece :: pieces
           | [] => [String c EmptyString]
           end
  end.

(** [pieces.join(sep)] *)
Definition join (sep : string) (pieces : list string) : string :=
  String.concat sep pieces.

(** The index a relative index stands for in [slice]. *)
Definition relativeIndex (len : nat) (i : Z) : nat :=
  if (i <? 0)%Z then Z.to_nat (Z.max (Z.of_nat len + i) 0)
  else Nat.min (Z.to_nat i) len.

(** [l.slice(start, end)] *)
Definition slice {A} (start end_ : Z) (l : list A) : list A :=
  let k := relativeIndex (length l) start in
  let final := relativeIndex (length l) end_ in
  take (final - k) (drop k l).

(** [l.at(i)] *)
Definition at_ {A} (i : Z) (l : list A) : option A :=
  let k := (if (i <? 0)%Z then Z.of_nat (length l) + i else i)%Z in
  if ((k <? 0) || (Z.of_nat (length l) <=? k))%Z then None
  else l !! Z.to_nat k.

(** The type of [digest] in [RedirectError]:
    [`${typeof REDIRECT_ERROR_CODE};${RedirectType};${string};${RedirectStatusCode};`],
    with the type and the status as they are written. *)
Definition redirectDigest (type url status : string) : string :=
  REDIRECT_ERROR_CODE +:+ ";" +:+ type +:+ ";" +:+ url +:+ ";" +:+ status +:+ ";".

(** The string has the character. *)
Fixpoint hasChar (c : Ascii.ascii) (s : string) : bool :=
  match s with
  | EmptyString => false
  | String c' rest => bool_decide (c' = c) || hasChar c rest
  end.

Section IsRedirectError.
Context `{JN : JsNumbers}.

(** [Number(status)], for a string or [undefined]. *)
Definition Number (status : option string) : JsNumber :=
  match status with
  | Some s => StringToNumber s
  | None => NaN
  end.

(** The local [destination]: [digest.slice(2, -2).join(';')]. *)
Definition destinationOf (digest : list string) : string :=
  join ";" (slice 2 (-2) digest).

(** The local [status]: [digest.at(-2)]. *)
Definition statusOf (digest : list string) : option string := at_ (-2) digest.

(** [statusCode] passes the last two tests. *)
Definition isRedirectStatus (status : option string) : bool :=
  negb (isNaN (Number status)) && inRedirectStatusCode (Number status).

Definition isRedirectError (error : JsValue) : bool :=
  match error with
  | VObject props =>
      match props !! "digest" with
      | Some (VString digestString) =>
          let digest := split semicolon digestString in
          let errorCode := digest !! 0 in
          let type := digest !! 1 in
          let destination := destinationOf digest in
          let status := statusOf digest in
          let statusCode := Number status in
          bool_decide (errorCode = Some REDIRECT_ERROR_CODE)
          && (bool_decide (type = Some "replace") || bool_decide (type = Some "push"))
          && true
          && negb (isNaN statusCode)
          && inRedirectStatusCode statusCode
      | _ => false
      end
  | _ => false
  end.

End IsRedirectError.

(** Numbers for worked examples: the status codes written in decimal digits;
    any other string is not a number. *)
Fixpoint digitsValue (acc : Z) (s : string) : option Z :=
  match s with
  | EmptyString => Some acc
  | String c rest =>
      let n := Z.of_N (Ascii.N_of_ascii c) in
      if ((48 <=? n) && (n <=? 57))%Z then digitsValue (10 * acc + (n - 48)) rest
      else None
  end.

#[export] Instance demoNumbers : JsNumbers := {|
  JsNumber := option Z;
  NaN := None;
  StringToNumber := fun s => match s with
                             | EmptyString => None
                             | _ => digitsValue 0 s
                             end;
  isNaN := fun n => bool_decide (n = None);
  isNaN_NaN := eq_refl;
  inRedirectStatusCode := fun n =>
    bool_decide (n = Some 303%Z) || bool_decide (n = Some 307%Z)
    || bool_decide (n = Some 308%Z)
|}.

(** An error object as [redirect] makes it, with a destination that has
    semicolons. *)
Definition redirectError : JsValue :=
  VObject (<["digest" := VString (redirectDigest "replace" "/a;b?x=1;y" "307")]>
             {[ "message" := VString "NEXT_REDIRECT" ]}).

End RedirectError.

(** ** More inputs for the worked examples *)

Module DemoRuns.
Import Demo.

(** A request for the route tree only. *)
Definition contextRouteTree : AppRenderContext := {|
  renderOpts := {| nextFontManifest := tt;
                   experimental := {| isRoutePPREnabled := false;
                                      authInterrupts := false |} |};
  query := tt;
  isPrefetch := true;
  getDynamicParamFromSegment := resolve;
  parsedRequestHeaders := {| isRouteTreePrefetchRequest := true |};
  clientReferenceManifest := tt
|}.

Definition argsRouteTree : WalkArgs := {|
  parentParams := ∅;
  flightRouterState := Some stateTwoBranches;
  parentRendered := false;
  rscPayloadHead := "head";
  injectedCSS := 1%positive;
  injectedJS := 2%positive;
  injectedFontPreloadTags := 3%positive;
  rootLayoutIncluded := false;
  getMetadataReady := tt;
  ctx := contextRouteTree;
  preloadCallbacks := tt
|}.

(** The arguments of the renderer at the page of the first branch of
    [twoBranches]: the copies at 7, 8 and 9. *)
Definition renderArgsPageA : ComponentTreeArgs :=
  componentTreeArgs
    (childArgs (argsBranch "children") (withLayout "a/layout") None false
       7%positive 8%positive 9%positive "children")
    (leaf "pageA") None.

(** The path to the page of the first branch, for a request for the route
    tree only. *)
Definition routeTreePathA : FlightDataPath :=
  [FSegment (SegmentString "dash"); FKey "children";
   FSegment (SegmentString "a"); FKey "children";
   FSegment (SegmentString "pageA");
   FRouterState (routerStateOf (leaf "pageA"));
   FSeed None; FHead None; FBool false].

Definition routeTreePathB : FlightDataPath :=
  [FSegment (SegmentString "dash"); FKey "x";
   FSegment (SegmentString "b"); FKey "children";
   FSegment (SegmentString "pageB");
   FRouterState (routerStateOf (leaf "pageB"));
   FSeed None; FHead None; FBool false].

(** The sub-path that the call on the slot [x] of [treeWithDefaultSlot]
    returns. *)
Definition defaultSlotPath : FlightDataPath :=
  [FSegment (SegmentString "__DEFAULT__");
   FRouterState (routerStateOf (leaf "__DEFAULT__"));
   FSeed (Some "seed:__DEFAULT__"); FHead (Some "head"); FBool false].

(** What that call is given: the copies at 4, 5 and 6, and no router state. *)
Definition argsDefaultSlot : WalkArgs :=
  childArgs argsWithoutSlot (withLayout "dash/layout") None false
    4%positive 5%positive 6%positive "x".

(** [/dash] with a slot named [constructor], a folder [@constructor], that
    holds a panel with a page. *)
Definition treeConstructorSlot : LoaderTree :=
  LoaderTreeNode "dash"
    [("constructor", LoaderTreeNode "panel" [("children", leaf "page")] noModules)]
    noModules.

(** The client state [['dash', {}]]. *)
Definition stateNoSlots : FlightRouterState :=
  RouterState (SegmentString "dash") ∅ None None None.

Definition argsConstructorSlot : WalkArgs := args false (Some stateNoSlots) true.

(** The slot [constructor] holding the default segment, for a client that
    has no slot. *)
Definition treeConstructorDefault : LoaderTree :=
  LoaderTreeNode "dash" [("constructor", leaf "__DEFAULT__")] noModules.

Definition argsNoSlots : WalkArgs := args false (Some stateNoSlots) false.

(** [/[x]/[...x]]: two levels that bind the same name. *)
Definition resolveSameName (segment : string) : option DynamicParam :=
  if bool_decide (segment = "[x]") then dyn "x" "1"
  else if bool_decide (segment = "[...x]") then
    Some {| param := "x"; value := Some (ParamList ["2"; "3"]);
            treeSegment := SegmentTuple "x" "2/3" "c"; type := "catchall" |}
  else None.

Definition contextSameName : AppRenderContext := {|
  renderOpts := {| nextFontManifest := tt;
                   experimental := {| isRoutePPREnabled := false;
                                      authInterrupts := false |} |};
  query := tt;
  isPrefetch := false;
  getDynamicParamFromSegment := resolveSameName;
  parsedRequestHeaders := {| isRouteTreePrefetchRequest := false |};
  clientReferenceManifest := tt
|}.

Definition treeSameName : LoaderTree :=
  LoaderTreeNode "[x]" [("children", leaf "[...x]")] noModules.

Definition stateSameName : FlightRouterState :=
  RouterState (SegmentTuple "x" "1" "d")
    {[ "children" := RouterState (SegmentTuple "x" "old" "c") ∅ None None None ]}
    None None None.

Definition argsSameName : WalkArgs := {|
  parentParams := ∅;
  flightRouterState := Some stateSameName;
  parentRendered := false;
  rscPayloadHead := "head";
  injectedCSS := 1%positive;
  injectedJS := 2%positive;
  injectedFontPreloadTags := 3%positive;
  rootLayoutIncluded := false;
  getMetadataReady := tt;
  ctx := contextSameName;
  preloadCallbacks := tt
|}.

(** The invocation at the leaf [[...x]] of [treeSameName]. *)
Definition callSameName : LoaderTree * WalkArgs * Heap :=
  default (treeSameName, argsSameName, heap0)
    (callAt [0] treeSameName argsSameName heap0).

(** The invocation at the leaf [[z]] of [nestedDynamic]. *)
Definition callZ : LoaderTree * WalkArgs * Heap :=
  default (nestedDynamic, argsNested, heap0)
    (callAt [0; 0; 0] nestedDynamic argsNested heap0).

(** The invocation at the page of the first branch of [twoBranches]. *)
Definition callPageA : LoaderTree * WalkArgs * Heap :=
  default (twoBranches, argsTwoBranches, heap1)
    (callAt [0; 0] twoBranches argsTwoBranches heap1).

End DemoRuns.

(** * Properties *)

Section Properties.
Context `{CB : Collaborators}.

(** Induction on loader trees, with the hypothesis for every child. *)
Lemma LoaderTree_ind' (P : LoaderTree → Prop) :
  (∀ segment routes modules,
      Forall (λ kc, P kc.2) routes → P (LoaderTreeNode segment routes modules)) →
  ∀ t, P t.
Proof.
  intros Hnode. fix IH 1. intros [segment routes modules].
  apply Hnode. induction routes as [|[k c] rest IHrest]; constructor.
  - apply IH.
  - apply IHrest.
Qed.

(** The body of the walk, with the loop as [walkParallelRoutes]. *)
Lemma walk_unfold t a :
  walkTreeWithFlightRouterState t a =
  bindM (enterWalk t a) (λ _,
    if startsRendering t a then
      renderFromThisLevel t a (segmentParamOf t a) (actualSegmentOf t a)
    else descendFromThisLevel t a).
Proof. destruct t as [segment routes modules]. reflexivity. Qed.

(** *** Running the blocks of the walk *)

Lemma render_run t a h :
  renderFromThisLevel t a (segmentParamOf t a) (actualSegmentOf t a) h =
  if shouldSkipComponentTree (ctx a) t then
    (Return [flightDataSegment t a None None], h, [])
  else
    let args := componentTreeArgs a t (segmentParamOf t a) in
    (match createComponentTree args h with
     | inl seedData =>
         Return [flightDataSegment t a (Some seedData) (Some (rscPayloadHead a))]
     | inr e => Throw (RendererThrew e)
     end, h, [EvRender args (createComponentTree args h)]).
Proof.
  unfold renderFromThisLevel, flightDataSegment.
  destruct (shouldSkipComponentTree (ctx a) t); [reflexivity|].
  unfold bindM, awaitComponentTree.
  destruct (createComponentTree _ h); reflexivity.
Qed.

Lemma walk_run t a h :
  walkTreeWithFlightRouterState t a h =
  let '(r, h', tr) :=
    if startsRendering t a then
      renderFromThisLevel t a (segmentParamOf t a) (actualSegmentOf t a) h
    else
      match setsWithCurrentLayout a (lt_modules t) h with
      | (Return (css, js, fonts), h1, tr1) =>
          let '(r, h2, tr2) :=
            walkParallelRoutes a (lt_modules t) (segmentParamOf t a)
              (actualSegmentOf t a) (rendersHere t a) css js fonts
              (lt_parallelRoutes t) [] h1 in
          (r, h2, tr1 ++ tr2)
      | (Throw e, h1, tr1) => (Throw e, h1, tr1)
      end in
  (r, h', EvWalk t a h :: tr).
Proof.
  rewrite walk_unfold. unfold bindM at 1, enterWalk.
  destruct (startsRendering t a).
  - destruct (renderFromThisLevel _ _ _ _ h) as [[r h'] tr]. reflexivity.
  - unfold descendFromThisLevel, bindM at 1.
    destruct (setsWithCurrentLayout a (lt_modules t) h) as [[[[[css js] fonts]|e] h1] tr1];
      [|reflexivity].
    destruct (walkParallelRoutes _ _ _ _ _ _ _ _ _ _ h1) as [[r h2] tr2]. reflexivity.
Qed.

Lemma loop_run_cons a modules sp actual rh css js fonts key route rest paths h :
  walkParallelRoutes a modules sp actual rh css js fonts ((key, route) :: rest) paths h =
  match readChildRouterState (flightRouterState a) key with
  | Return _ =>
      match walkTreeWithFlightRouterState route
              (childArgs a modules sp rh css js fonts key) h with
      | (Return subPaths, h1, tr1) =>
          match pushSubPaths actual (flightRouterState a) key subPaths paths with
          | Return paths' =>
              let '(r, h2, tr2) :=
                walkParallelRoutes a modules sp actual rh css js fonts rest paths' h1 in
              (r, h2, tr1 ++ tr2)
          | Throw e => (Throw e, h1, tr1)
          end
      | (Throw e, h1, tr1) => (Throw e, h1, tr1)
      end
  | Throw e => (Throw e, h, [])
  end.
Proof.
  cbn [walkParallelRoutes]. unfold bindM at 1, liftC at 1.
  destruct (readChildRouterState (flightRouterState a) key) as [child|e]; [|reflexivity].
  unfold bindM at 1.
  destruct (walkTreeWithFlightRouterState route _ h) as [[[subPaths|e] h1] tr1];
    [|reflexivity].
  unfold bindM at 1, liftC.
  destruct (pushSubPaths _ _ _ _ _) as [paths'|e]; [|rewrite app_nil_r; reflexivity].
  destruct (walkParallelRoutes _ _ _ _ _ _ _ _ _ _ h1) as [[r h2] tr2].
  reflexivity.
Qed.

(** *** The heap *)

Lemma extends_refl h : extends h h.
Proof. intros l _. reflexivity. Qed.

Lemma extends_dom h h' : extends h h' → dom h ⊆ dom h'.
Proof.
  intros He l Hl. apply elem_of_dom. rewrite (He l Hl). by apply elem_of_dom.
Qed.

Lemma extends_trans h1 h2 h3 : extends h1 h2 → extends h2 h3 → extends h1 h3.
Proof.
  intros H12 H23 l Hl. rewrite (H23 l); [by apply H12|].
  by apply (extends_dom _ _ H12).
Qed.

Lemma extends_contents h h' l : extends h h' → l ∈ dom h → contents h' l = contents h l.
Proof. intros He Hl. unfold contents. by rewrite (He l Hl). Qed.

Lemma extends_insert_fresh h l (s : gset string) : l ∉ dom h → extends h (<[l := s]> h).
Proof. intros Hl k Hk. rewrite lookup_insert_ne; [done|]. intros ->. done. Qed.

Lemma contents_insert_eq h l (s : gset string) : contents (<[l := s]> h) l = s.
Proof. unfold contents. by rewrite lookup_insert_eq. Qed.

Lemma contents_insert_ne h l k (s : gset string) :
  l ≠ k → contents (<[l := s]> h) k = contents h k.
Proof. intros Hne. unfold contents. by rewrite lookup_insert_ne. Qed.

Lemma newSet_run src h :
  ∃ l, newSet src h = (Return l, <[l := contents h src]> h, []) ∧ l ∉ dom h.
Proof. exists (fresh (dom h)). split; [reflexivity | apply is_fresh]. Qed.

(** The copies are new sets, pairwise different; each holds what the set it
    was copied from held, and the assets of the layout; no other set
    changes. *)
Lemma setsWithCurrentLayout_run a modules h :
  ∃ css js fonts h1,
    setsWithCurrentLayout a modules h = (Return (css, js, fonts), h1, [])
    ∧ (css ∉ dom h ∧ js ∉ dom h ∧ fonts ∉ dom h)
    ∧ (css ≠ js ∧ css ≠ fonts ∧ js ≠ fonts)
    ∧ dom h1 = dom h ∪ {[css; js; fonts]}
    ∧ extends h h1
    ∧ (allocated a h →
       contents h1 css = contents h (injectedCSS a) ∪ layoutCSS a modules
       ∧ contents h1 js = contents h (injectedJS a) ∪ layoutJS a modules
       ∧ contents h1 fonts
         = contents h (injectedFontPreloadTags a) ∪ layoutFonts a modules).
Proof.
  unfold setsWithCurrentLayout, bindM at 1.
  destruct (newSet_run (injectedCSS a) h) as (css & -> & Hcss).
  set (h_c := <[css := contents h (injectedCSS a)]> h).
  unfold bindM at 1.
  destruct (newSet_run (injectedJS a) h_c) as (js & -> & Hjs).
  set (h_j := <[js := contents h_c (injectedJS a)]> h_c).
  unfold bindM at 1.
  destruct (newSet_run (injectedFontPreloadTags a) h_j) as (fonts & -> & Hfonts).
  set (h_f := <[fonts := contents h_j (injectedFontPreloadTags a)]> h_j).
  assert (Hdc : dom h_c = {[css]} ∪ dom h) by apply dom_insert_L.
  assert (Hdj : dom h_j = {[js]} ∪ dom h_c) by apply dom_insert_L.
  assert (Hdf : dom h_f = {[fonts]} ∪ dom h_j) by apply dom_insert_L.
  rewrite Hdc in Hjs. rewrite Hdj, Hdc in Hfonts.
  assert (Hne1 : css ≠ js) by (intros ->; set_solver).
  assert (Hne2 : css ≠ fonts) by (intros ->; set_solver).
  assert (Hne3 : js ≠ fonts) by (intros ->; set_solver).
  assert (Hjs' : js ∉ dom h) by set_solver.
  assert (Hfonts' : fonts ∉ dom h) by set_solver.
  assert (Hcont : allocated a h →
            contents h_f css = contents h (injectedCSS a)
            ∧ contents h_f js = contents h (injectedJS a)
            ∧ contents h_f fonts = contents h (injectedFontPreloadTags a)).
  { intros (Hc & Hj & Hf).
    assert (Hne4 : css ≠ injectedJS a) by (intros E; apply Hcss; by rewrite E).
    assert (Hne5 : css ≠ injectedFontPreloadTags a)
      by (intros E; apply Hcss; by rewrite E).
    assert (Hne6 : js ≠ injectedFontPreloadTags a)
      by (intros E; apply Hjs'; by rewrite E).
    split; [|split].
    - unfold h_f, h_j. rewrite !contents_insert_ne by done. apply contents_insert_eq.
    - unfold h_f. rewrite contents_insert_ne by done. unfold h_j.
      rewrite contents_insert_eq. unfold h_c. by rewrite contents_insert_ne.
    - unfold h_f. rewrite contents_insert_eq. unfold h_j, h_c.
      by rewrite !contents_insert_ne. }
  assert (Hext : extends h h_f).
  { intros l Hl. unfold h_f, h_j, h_c.
    rewrite !lookup_insert_ne; [done| | |]; intros ->; done. }
  rewrite Hdj, Hdc in Hdf. clearbody h_f. clear Hdj Hdc h_j h_c.
  unfold layoutCSS, layoutJS, layoutFonts.
  destruct (layoutPath modules) as [path|].
  - unfold getLinkAndScriptTags, getPreloadableFonts, bindM, addAll, retM.
    eexists css, js, fonts, _. split; [reflexivity|].
    split; [done|]. split; [done|].
    split; [rewrite !dom_insert_L, Hdf; set_solver|].
    split.
    { intros l Hl. rewrite !lookup_insert_ne; [by apply Hext| | |]; intros ->; done. }
    intros Halloc. destruct (Hcont Halloc) as (Hcc & Hcj & Hcf).
    rewrite contents_insert_ne, contents_insert_ne, contents_insert_eq by done.
    rewrite contents_insert_ne, contents_insert_eq by done.
    rewrite contents_insert_eq.
    rewrite !contents_insert_ne by done.
    by rewrite Hcc, Hcj, Hcf.
  - unfold bindM, retM. exists css, js, fonts, h_f. split; [reflexivity|].
    split; [done|]. split; [done|].
    split; [rewrite Hdf; set_solver|]. split; [done|].
    intros Halloc. destruct (Hcont Halloc) as (Hcc & Hcj & Hcf).
    rewrite Hcc, Hcj, Hcf. by rewrite !(right_id_L ∅ (∪)).
Qed.

Lemma setsWithCurrentLayout_returns a modules h :
  ∃ css js fonts h1,
    setsWithCurrentLayout a modules h = (Return (css, js, fonts), h1, [])
    ∧ extends h h1 ∧ css ∉ dom h ∧ css ∈ dom h1.
Proof.
  destruct (setsWithCurrentLayout_run a modules h)
    as (css & js & fonts & h1 & Hrun & (Hcss & _) & _ & Hdom & Hext & _).
  exists css, js, fonts, h1. repeat split; try done. rewrite Hdom. set_solver.
Qed.


(** The walk writes only to the sets it allocates. *)
Lemma loop_frame a modules sp actual rh css js fonts routes :
  Forall (λ kc : string * LoaderTree,
            ∀ a h, extends h (heapAfter (walkTreeWithFlightRouterState kc.2 a h))) routes →
  ∀ paths h,
    extends h (heapAfter (walkParallelRoutes a modules sp actual rh css js fonts
                            routes paths h)).
Proof.
  induction 1 as [|[key route] rest Hroute _ IH]; intros paths h.
  - apply extends_refl.
  - rewrite loop_run_cons. specialize (Hroute (childArgs a modules sp rh css js fonts key) h).
    cbn [snd] in Hroute.
    destruct (readChildRouterState _ key) as [child|e]; [|apply extends_refl].
    destruct (walkTreeWithFlightRouterState route _ h) as [[[subPaths|e] h1] tr1];
      [|exact Hroute].
    destruct (pushSubPaths _ _ _ _ _) as [paths'|e]; [|exact Hroute].
    specialize (IH paths' h1).
    destruct (walkParallelRoutes _ _ _ _ _ _ _ _ _ _ h1) as [[r h2] tr2].
    eapply extends_trans; [exact Hroute | exact IH].
Qed.

Lemma walk_frame t : ∀ a h, extends h (heapAfter (walkTreeWithFlightRouterState t a h)).
Proof.
  induction t as [segment routes modules IH] using LoaderTree_ind'. intros a h.
  rewrite walk_run. destruct (startsRendering _ a).
  - rewrite render_run. destruct (shouldSkipComponentTree _ _); apply extends_refl.
  - cbn [lt_modules lt_parallelRoutes].
    destruct (setsWithCurrentLayout_returns a modules h)
      as (css & js & fonts & h1 & -> & Hsets & _).
    pose proof (loop_frame a modules (segmentParamOf (LoaderTreeNode segment routes modules) a)
                  (actualSegmentOf (LoaderTreeNode segment routes modules) a)
                  (rendersHere (LoaderTreeNode segment routes modules) a)
                  css js fonts routes IH [] h1) as Hloop.
    destruct (walkParallelRoutes _ _ _ _ _ _ _ _ _ _ h1) as [[r h2] tr2].
    eapply extends_trans; [exact Hsets | exact Hloop].
Qed.

(** The trace of a call starts with the call. *)
Lemma walk_trace_head t a h :
  ∃ tr, trace (walkTreeWithFlightRouterState t a h) = EvWalk t a h :: tr.
Proof.
  rewrite walk_run.
  destruct (if startsRendering t a then _ else _) as [[r h'] tr]. by exists tr.
Qed.

(** *** A property of every call below a call *)

Section CallInvariant.
Variable I : LoaderTree → WalkArgs → Heap → Prop.

(** [I] passes from a level that does not render to the calls it makes. *)
Hypothesis I_child : ∀ t a h css js fonts h1 hk key route,
  I t a h →
  startsRendering t a = false →
  setsWithCurrentLayout a (lt_modules t) h = (Return (css, js, fonts), h1, []) →
  extends h1 hk →
  (key, route) ∈ lt_parallelRoutes t →
  I route
    (childArgs a (lt_modules t) (segmentParamOf t a) (rendersHere t a) css js fonts key)
    hk.

Lemma loop_calls_invariant a modules sp actual rh css js fonts h1 routes :
  Forall (λ kc : string * LoaderTree,
            ∀ a h, I kc.2 a h →
                   Forall (eventSatisfies I)
                     (trace (walkTreeWithFlightRouterState kc.2 a h))) routes →
  (∀ key route hk, (key, route) ∈ routes → extends h1 hk →
                   I route (childArgs a modules sp rh css js fonts key) hk) →
  ∀ paths hk, extends h1 hk →
    Forall (eventSatisfies I)
      (trace (walkParallelRoutes a modules sp actual rh css js fonts routes paths hk)).
Proof.
  induction 1 as [|[key route] rest Hroute _ IH]; intros Hchild paths hk Hhk.
  - constructor.
  - rewrite loop_run_cons.
    destruct (readChildRouterState _ key) as [child|e]; [|constructor].
    assert (Hcall : I route (childArgs a modules sp rh css js fonts key) hk)
      by (apply Hchild; [left|done]).
    specialize (Hroute _ _ Hcall). cbn [snd] in Hroute.
    pose proof (walk_frame route (childArgs a modules sp rh css js fonts key) hk) as Hfr.
    destruct (walkTreeWithFlightRouterState route _ hk) as [[[subPaths|e] hk1] tr1];
      [|exact Hroute].
    destruct (pushSubPaths _ _ _ _ _) as [paths'|e]; [|exact Hroute].
    assert (Hrest : Forall (eventSatisfies I)
              (trace (walkParallelRoutes a modules sp actual rh css js fonts rest
                        paths' hk1))).
    { apply IH.
      - intros k r h' Hin. apply Hchild. by right.
      - eapply extends_trans; [exact Hhk | exact Hfr]. }
    destruct (walkParallelRoutes _ _ _ _ _ _ _ _ _ _ hk1) as [[r h2] tr2].
    apply Forall_app. split; [exact Hroute | exact Hrest].
Qed.

Lemma walk_calls_invariant t :
  ∀ a h, I t a h →
         Forall (eventSatisfies I) (trace (walkTreeWithFlightRouterState t a h)).
Proof.
  induction t as [segment routes modules IH] using LoaderTree_ind'. intros a h HI.
  set (t := LoaderTreeNode segment routes modules) in *.
  rewrite walk_run. destruct (startsRendering t a) eqn:Hstart.
  - rewrite render_run. destruct (shouldSkipComponentTree _ _).
    + repeat constructor. exact HI.
    + constructor; [exact HI|]. constructor; [|constructor].
      exists t, a, h. done.
  - cbn [lt_modules lt_parallelRoutes t].
    destruct (setsWithCurrentLayout_returns a modules h)
      as (css & js & fonts & h1 & Hsets & Hext & _).
    rewrite Hsets.
    assert (Hloop : Forall (eventSatisfies I)
              (trace (walkParallelRoutes a modules (segmentParamOf t a)
                        (actualSegmentOf t a) (rendersHere t a) css js fonts routes
                        [] h1))).
    { apply (loop_calls_invariant _ _ _ _ _ _ _ _ h1); [exact IH| |apply extends_refl].
      intros key route hk Hin Hhk.
      apply (I_child t a h css js fonts h1 hk key route); done. }
    destruct (walkParallelRoutes _ _ _ _ _ _ _ _ _ _ h1) as [[r h2] tr2].
    constructor; [exact HI | exact Hloop].
Qed.

End CallInvariant.

(** *** The decision to render at a level *)

Lemma rendersHere_iff t a :
  rendersHere t a = true ↔
    flightRouterState a = None
    ∨ (∃ f, flightRouterState a = Some f
            ∧ matchSegment (actualSegmentOf t a) (frs_segment f) = false)
    ∨ lt_parallelRoutes t = []
    ∨ (∃ f, flightRouterState a = Some f ∧ frs_refresh f = Some "refetch").
Proof.
  unfold rendersHere, renderComponentsOnThisLevel, isRefetch.
  destruct (flightRouterState a) as [f|]; [|split; [by left|done]].
  rewrite !orb_true_iff, negb_true_iff, !bool_decide_eq_true, length_fmap.
  split.
  - intros [[Hm|Hk]|Hr].
    + right; left. by exists f.
    + right; right; left. by apply length_zero_iff_nil.
    + right; right; right. by exists f.
  - intros [Hn|[(f' & Hf & Hm)|[Hk|(f' & Hf & Hr)]]].
    + discriminate.
    + injection Hf as <-. by left; left.
    + left; right. by rewrite Hk.
    + injection Hf as <-. by right.
Qed.

(** A level that does not render allocates; one that renders does not. *)
Lemma descend_changes_heap t a h :
  heapAfter
    (let '(r, h', tr) := descendFromThisLevel t a h in (r, h', EvWalk t a h :: tr)) ≠ h.
Proof.
  unfold descendFromThisLevel, bindM at 1.
  destruct (setsWithCurrentLayout_returns a (lt_modules t) h)
    as (css & js & fonts & h1 & -> & Hext & Hfresh & Hcss).
  pose proof (loop_frame a (lt_modules t) (segmentParamOf t a) (actualSegmentOf t a)
                (rendersHere t a) css js fonts (lt_parallelRoutes t)) as Hloop.
  specialize (Hloop ltac:(apply Forall_forall; intros; apply walk_frame) [] h1).
  destruct (walkParallelRoutes _ _ _ _ _ _ _ _ _ _ h1) as [[r h2] tr2].
  cbn in *. intros ->. apply Hfresh. by apply (extends_dom _ _ Hloop).
Qed.

Lemma render_keeps_heap t a h :
  heapAfter (renderFromThisLevel t a (segmentParamOf t a) (actualSegmentOf t a) h) = h.
Proof. rewrite render_run. by destruct (shouldSkipComponentTree _ _). Qed.

(** C1: with [parentRendered] false, the block that renders at this level is
    the one that runs exactly when the router state is absent, or its segment
    does not match the actual segment, or the level has no parallel routes,
    or its marker is ['refetch'].  The two blocks are told apart by the heap:
    only the descent allocates.  In particular a matching segment marked
    ['refetch'] renders, and so does a level without parallel routes. *)
Theorem render_decision_C1 t a h :
  parentRendered a = false →
  let renders :=
    flightRouterState a = None
    ∨ (∃ f, flightRouterState a = Some f
            ∧ matchSegment (actualSegmentOf t a) (frs_segment f) = false)
    ∨ lt_parallelRoutes t = []
    ∨ (∃ f, flightRouterState a = Some f ∧ frs_refresh f = Some "refetch") in
  (startsRendering t a = true ↔ renders)
  ∧ walkTreeWithFlightRouterState t a =
      bindM (enterWalk t a) (λ _,
        if rendersHere t a
        then renderFromThisLevel t a (segmentParamOf t a) (actualSegmentOf t a)
        else descendFromThisLevel t a)
  ∧ (heapAfter (walkTreeWithFlightRouterState t a h) = h ↔ renders)
  ∧ (∀ f, flightRouterState a = Some f →
          matchSegment (actualSegmentOf t a) (frs_segment f) = true →
          frs_refresh f = Some "refetch" → startsRendering t a = true)
  ∧ (lt_parallelRoutes t = [] → startsRendering t a = true).
Proof.
  intros Hparent renders.
  assert (Hstart : startsRendering t a = rendersHere t a)
    by (unfold startsRendering; by rewrite Hparent).
  assert (Hiff : startsRendering t a = true ↔ renders)
    by (rewrite Hstart; apply rendersHere_iff).
  split; [exact Hiff|]. split; [by rewrite walk_unfold, Hstart|].
  split; [|split].
  - rewrite <- Hiff, walk_unfold. unfold bindM at 1, enterWalk.
    destruct (startsRendering t a).
    + pose proof (render_keeps_heap t a h) as Hk.
      destruct (renderFromThisLevel _ _ _ _ h) as [[r h'] tr]. done.
    + pose proof (descend_changes_heap t a h) as Hd.
      destruct (descendFromThisLevel t a h) as [[r h'] tr]. cbn in *. split; done.
  - intros f Hf _ Hr. apply Hiff. right; right; right. by exists f.
  - intros Hk. apply Hiff. by right; right; left.
Qed.

(** *** The prefetch short-circuit *)

(** C2: the component tree is skipped exactly when PPR is off and the request
    is for the route tree only, or is a prefetch and there is no [loading]
    module at this node nor one found by [hasLoadingComponentInTree].  When
    that holds at a level that renders, and [parentRendered] is false, the
    walk returns the one path [[segment, routerState, null, null, false]]:
    the trace holds this call alone (the renderer is not invoked, no call is
    made below) and the heap is as it was. *)
Theorem prefetch_short_circuit_C2 t a h :
  (shouldSkipComponentTree (ctx a) t = true ↔
     isRoutePPREnabled (experimental (renderOpts (ctx a))) = false
     ∧ (isRouteTreePrefetchRequest (parsedRequestHeaders (ctx a)) = true
        ∨ (isPrefetch (ctx a) = true
           ∧ loading (lt_modules t) = None
           ∧ hasLoadingComponentInTree t = false)))
  ∧ (parentRendered a = false →
     rendersHere t a = true →
     shouldSkipComponentTree (ctx a) t = true →
     walkTreeWithFlightRouterState t a h =
       (Return
          [[FSegment (overriddenSegment (flightRouterState a) (actualSegmentOf t a));
            FRouterState
              (createFlightRouterStateFromLoaderTree t
                 (getDynamicParamFromSegment (ctx a)) (query (ctx a)));
            FSeed None; FHead None; FBool false]],
        h, [EvWalk t a h])).
Proof.
  split.
  - unfold shouldSkipComponentTree.
    rewrite andb_true_iff, orb_true_iff, !andb_true_iff, !negb_true_iff.
    rewrite bool_decide_eq_false, <- eq_None_not_Some. tauto.
  - intros Hparent Hrender Hskip.
    rewrite walk_run. unfold startsRendering. rewrite Hparent, Hrender. cbn [negb andb].
    rewrite render_run, Hskip. reflexivity.
Qed.

(** *** No router state *)

(** C6: with no router state, [parentRendered] false and no short-circuit,
    when the renderer returns [seedData] for the slice the walk returns the
    one path [[actualSegment, routerState, seedData, head, false]].  The
    renderer is invoked once, on the whole slice; no call is made below and
    no set is copied. *)
Theorem no_router_state_full_render_C6 t a h seedData :
  flightRouterState a = None →
  parentRendered a = false →
  shouldSkipComponentTree (ctx a) t = false →
  createComponentTree (componentTreeArgs a t (segmentParamOf t a)) h = inl seedData →
  walkTreeWithFlightRouterState t a h =
    (Return
       [[FSegment (actualSegmentOf t a);
         FRouterState
           (createFlightRouterStateFromLoaderTree t
              (getDynamicParamFromSegment (ctx a)) (query (ctx a)));
         FSeed (Some seedData); FHead (Some (rscPayloadHead a)); FBool false]],
     h,
     [EvWalk t a h;
      EvRender (componentTreeArgs a t (segmentParamOf t a)) (inl seedData)])
  ∧ ct_loaderTree (componentTreeArgs a t (segmentParamOf t a)) = t.
Proof.
  intros Hfrs Hparent Hskip Hseed. split; [|reflexivity].
  rewrite walk_run. unfold startsRendering, rendersHere. rewrite Hparent, Hfrs.
  cbn [negb andb renderComponentsOnThisLevel].
  rewrite render_run, Hskip. cbn zeta. rewrite Hseed.
  unfold flightDataSegment. rewrite Hfrs. reflexivity.
Qed.

(** *** Below a level that rendered *)

Lemma routes_size_cons key route rest :
  routes_size ((key, route) :: rest) = lt_size route + routes_size rest.
Proof. reflexivity. Qed.

Lemma lt_size_node segment routes modules :
  lt_size (LoaderTreeNode segment routes modules) = S (routes_size routes).
Proof.
  cbn [lt_size]. f_equal.
  induction routes as [|[k c] rest IH]; [reflexivity|].
  by rewrite routes_size_cons, <- IH.
Qed.

Lemma readChildRouterState_throws frs key e :
  readChildRouterState frs key = Throw e →
  e = TypeError ∧ ∃ name, frs = Some (InheritedProperty name).
Proof.
  destruct frs as [[segment routes url refresh root|name]|]; cbn; try done.
  intros [= <-]. split; [done|by exists name].
Qed.

Lemma childRouterState_read frs key child :
  readChildRouterState frs key = Return child → childRouterState frs key = child.
Proof. unfold childRouterState. by intros ->. Qed.





(** *** Failures of the renderer *)

Lemma skipsDefaultRoute_throws subPath frs key e :
  skipsDefaultRoute subPath frs key = Throw e → e = TypeError.
Proof.
  unfold skipsDefaultRoute. destruct (startsWithDefault subPath); [|done].
  destruct frs as [[segment routes url refresh root|name]|]; cbn; [| |done].
  - destruct (getProperty routes key); [done|]. congruence.
  - congruence.
Qed.

Lemma pushSubPaths_throws actual frs key subPaths :
  ∀ paths e, pushSubPaths actual frs key subPaths paths = Throw e → e = TypeError.
Proof.
  induction subPaths as [|subPath rest IH]; intros paths e; cbn [pushSubPaths]; [done|].
  destruct (skipsDefaultRoute subPath frs key) as [[|]|e'] eqn:Hskip.
  - apply IH.
  - apply IH.
  - intros [= <-]. by eapply skipsDefaultRoute_throws.
Qed.

Lemma final_after_clean {A B} (r : Completion A) (h1 h2 : Heap) (tr1 tr2 : list Event)
    (r2 : Completion B) :
  Forall (λ ev, ¬ failedRender ev) tr1 →
  rendererFailureIsFinal (r2, h2, tr2) →
  rendererFailureIsFinal (r2, h1, tr1 ++ tr2).
Proof.
  intros Hclean. unfold rendererFailureIsFinal, completion, trace. cbn [fst snd].
  destruct r2 as [x|[|e]]; try (intros; by apply Forall_app).
  intros (pre & args & -> & Hpre). exists (tr1 ++ pre), args.
  split; [by rewrite app_assoc | by apply Forall_app].
Qed.

Lemma loop_failure_final a modules sp actual rh css js fonts routes :
  Forall (λ kc : string * LoaderTree,
            ∀ a h, rendererFailureIsFinal (walkTreeWithFlightRouterState kc.2 a h))
         routes →
  ∀ paths h,
    rendererFailureIsFinal
      (walkParallelRoutes a modules sp actual rh css js fonts routes paths h).
Proof.
  induction 1 as [|[key route] rest Hroute _ IH]; intros paths h.
  - constructor.
  - rewrite loop_run_cons.
    specialize (Hroute (childArgs a modules sp rh css js fonts key) h).
    cbn [snd] in Hroute.
    destruct (readChildRouterState _ key) as [child|e] eqn:Hread;
      [|apply readChildRouterState_throws in Hread as [-> _]; constructor].
    destruct (walkTreeWithFlightRouterState route _ h) as [[[subPaths|e] h1] tr1];
      [|exact Hroute].
    destruct (pushSubPaths _ _ _ _ _) as [paths'|e] eqn:Hpush.
    + specialize (IH paths' h1).
      destruct (walkParallelRoutes _ _ _ _ _ _ _ _ _ _ h1) as [[r h2] tr2].
      by apply (final_after_clean (Return subPaths) h2 h2).
    + apply pushSubPaths_throws in Hpush as ->. exact Hroute.
Qed.

Lemma walk_failure_final t :
  ∀ a h, rendererFailureIsFinal (walkTreeWithFlightRouterState t a h).
Proof.
  induction t as [segment routes modules IH] using LoaderTree_ind'. intros a h.
  set (t := LoaderTreeNode segment routes modules) in *.
  rewrite walk_run. destruct (startsRendering t a).
  - rewrite render_run. destruct (shouldSkipComponentTree _ _).
    + repeat constructor. by intros [].
    + cbn zeta. unfold rendererFailureIsFinal, completion, trace. cbn [fst snd].
      destruct (createComponentTree _ h) as [seedData|e].
      * repeat constructor; by intros [].
      * eexists [_], _. split; [reflexivity|]. repeat constructor. by intros [].
  - cbn [lt_modules lt_parallelRoutes t].
    destruct (setsWithCurrentLayout_returns a modules h)
      as (css & js & fonts & h1 & -> & _).
    pose proof (loop_failure_final a modules (segmentParamOf t a) (actualSegmentOf t a)
                  (rendersHere t a) css js fonts routes IH [] h1) as Hloop.
    destruct (walkParallelRoutes _ _ _ _ _ _ _ _ _ _ h1) as [[r h2] tr2].
    cbn [app].
    apply (final_after_clean (Return tt) h2 h2 [EvWalk t a h] tr2); [|exact Hloop].
    repeat constructor. by intros [].
Qed.

(** C9: the walk neither catches nor retries.  If an invocation of the
    renderer made during a call (at its level or anywhere below) throws [e],
    the call ends by throwing exactly [e] and returns no paths; that
    invocation is the last thing the call did, and no other invocation of the
    renderer threw before it.  At the level that renders: when the renderer
    throws [e] on the arguments built there, the call throws [e] at once.
    Every invocation in the trace is one made by a level that renders, with
    the outcome the renderer gave. *)
Theorem renderer_failure_propagates_C9 t a h args e :
  (EvRender args (inr e) ∈ trace (walkTreeWithFlightRouterState t a h) →
   completion (walkTreeWithFlightRouterState t a h) = Throw (RendererThrew e)
   ∧ ∃ pre, trace (walkTreeWithFlightRouterState t a h)
            = pre ++ [EvRender args (inr e)]
            ∧ Forall (λ ev, ¬ failedRender ev) pre)
  ∧ (startsRendering t a = true →
     shouldSkipComponentTree (ctx a) t = false →
     createComponentTree (componentTreeArgs a t (segmentParamOf t a)) h = inr e →
     walkTreeWithFlightRouterState t a h =
       (Throw (RendererThrew e), h,
        [EvWalk t a h;
         EvRender (componentTreeArgs a t (segmentParamOf t a)) (inr e)]))
  ∧ (∀ args' outcome,
       EvRender args' outcome ∈ trace (walkTreeWithFlightRouterState t a h) →
       ∃ t' a' h',
         startsRendering t' a' = true
         ∧ args' = componentTreeArgs a' t' (segmentParamOf t' a')
         ∧ outcome = createComponentTree args' h').
Proof.
  split; [|split]; cycle 1.
  { intros Hstart Hskip Hthrow. rewrite walk_run, Hstart, render_run, Hskip.
    cbn zeta. by rewrite Hthrow. }
  { intros args' outcome Hin.
    pose proof (walk_calls_invariant (λ _ _ _, True) ltac:(done) t a h I) as Hall.
    destruct (proj1 (Forall_forall _ _) Hall _ Hin) as (t' & a' & h' & _ & H1 & H2 & H3).
    by exists t', a', h'. }
  intros Hin. pose proof (walk_failure_final t a h) as Hfinal.
  unfold rendererFailureIsFinal in Hfinal.
  assert (Hfailed : failedRender (EvRender args (inr e))) by exact I.
  destruct (completion (walkTreeWithFlightRouterState t a h)) as [paths|[|e']].
  - exfalso. by apply (proj1 (Forall_forall _ _) Hfinal _ Hin).
  - exfalso. by apply (proj1 (Forall_forall _ _) Hfinal _ Hin).
  - destruct Hfinal as (pre & args' & Htr & Hpre). rewrite Htr in Hin |- *.
    apply elem_of_app in Hin as [Hin|Hin].
    + exfalso. by apply (proj1 (Forall_forall _ _) Hpre _ Hin).
    + apply list_elem_of_singleton in Hin. injection Hin as -> ->.
      split; [reflexivity|]. by exists pre.
Qed.

(** *** The root layout flag *)

(** C7: a level passes [rootLayoutIncluded || (isLayout && !rootLayoutIncluded)]
    to every call it makes, so a flag that is true is passed on as true; and
    below a call that received true, every invocation of the walk and of the
    renderer, at any depth, received true. *)
Theorem rootLayoutIncluded_monotone_C7 :
  (∀ a modules sp renderHere css js fonts key,
     rootLayoutIncluded (childArgs a modules sp renderHere css js fonts key)
     = rootLayoutIncluded a || (isLayout modules && negb (rootLayoutIncluded a)))
  ∧ (∀ a modules sp renderHere css js fonts key,
       rootLayoutIncluded a = true →
       rootLayoutIncluded (childArgs a modules sp renderHere css js fonts key) = true)
  ∧ (∀ t a h,
       rootLayoutIncluded a = true →
       Forall (λ ev, eventRootLayoutIncluded ev = true)
         (trace (walkTreeWithFlightRouterState t a h))).
Proof.
  split; [reflexivity|]. split.
  - intros a modules sp rh css js fonts key Hincl. cbn.
    unfold rootLayoutIncludedAtThisLevelOrAbove. by rewrite Hincl.
  - intros t a h Hincl.
    pose proof (walk_calls_invariant (λ _ a _, rootLayoutIncluded a = true)) as Hinv.
    eapply Forall_impl; [apply Hinv; [|exact Hincl]|].
    + intros t' a' h' css js fonts h1 hk key route Ha' _ _ _ _. cbn.
      unfold rootLayoutIncludedAtThisLevelOrAbove. by rewrite Ha'.
    + intros [t' a' h'|args outcome]; cbn; [done|].
      intros (t' & a' & h' & Ha' & _ & -> & _). exact Ha'.
Qed.

(** *** The params *)

Lemma currentParams_dom sp (params : Params) : dom params ⊆ dom (currentParams sp params).
Proof.
  unfold currentParams. destruct sp as [d|]; [|done].
  destruct (value d); [|done]. rewrite dom_insert_L. set_solver.
Qed.

Lemma paramsAlong_snoc resolve segments segment (params : Params) :
  paramsAlong resolve (segments ++ [segment]) params
  = currentParams (resolve segment) (paramsAlong resolve segments params).
Proof. unfold paramsAlong. by rewrite foldl_app. Qed.

Lemma paramsAlong_dom resolve segments (params : Params) :
  dom params ⊆ dom (paramsAlong resolve segments params).
Proof.
  induction segments as [|segment segments IH] using rev_ind; [done|].
  rewrite paramsAlong_snoc. etrans; [exact IH | apply currentParams_dom].
Qed.

(** A binding made at a level is in the params below it, with its value
    unless a deeper level binds the same name. *)
Lemma paramsAlong_binding resolve segments (params : Params) i segment d v :
  segments !! i = Some segment →
  resolve segment = Some d →
  value d = Some v →
  param d ∈ dom (paramsAlong resolve segments params)
  ∧ ((∀ j segment' d', i < j → segments !! j = Some segment' →
        resolve segment' = Some d' → is_Some (value d') → param d' ≠ param d) →
     paramsAlong resolve segments params !! param d = Some v).
Proof.
  revert i. induction segments as [|last segments IH] using rev_ind;
    intros i Hi Hd Hv; [done|].
  rewrite paramsAlong_snoc.
  destruct (decide (i < length segments)) as [Hlt|Hge].
  - rewrite lookup_app_l in Hi by done.
    destruct (IH i Hi Hd Hv) as [Hdom Hval]. split.
    + by apply (currentParams_dom (resolve last)).
    + intros Hlater.
      assert (Hkeep : paramsAlong resolve segments params !! param d = Some v).
      { apply Hval. intros j segment' d' Hj Hseg'. apply (Hlater j); [done|].
        apply lookup_app_l_Some. exact Hseg'. }
      unfold currentParams. destruct (resolve last) as [d'|] eqn:Hlast; [|done].
      destruct (value d') as [v'|] eqn:Hv'; [|done].
      rewrite lookup_insert_ne; [done|].
      apply (Hlater (length segments) last d'); [done| |done|by rewrite Hv'].
      by rewrite lookup_app_r, Nat.sub_diag.
  - assert (i = length segments) as ->.
    { apply lookup_lt_Some in Hi. rewrite length_app in Hi. cbn in Hi. lia. }
    rewrite lookup_app_r, Nat.sub_diag in Hi by done. injection Hi as ->.
    unfold currentParams. rewrite Hd, Hv. split.
    + rewrite dom_insert_L. set_solver.
    + intros _. apply lookup_insert_eq.
Qed.

(** *** Default routes *)


(** The entry the test of the [continue] reads. *)
Lemma parallelRouteEntry_own f key child :
  frs_parallelRoutes f !! key = Some child →
  parallelRouteEntry f key = Return (Some child).
Proof.
  destruct f as [segment routes url refresh root|name]; cbn; [|by rewrite lookup_empty].
  unfold getProperty. by intros ->.
Qed.



(** The test throws exactly when a sub-path starts with the default segment
    and the read of the router state's entry for the key finds nothing: the
    map has no own entry for the key and the key names no property of
    [Object.prototype], or the router state is itself such a property. *)
Lemma skipsDefaultRoute_throws_iff subPath frs key e :
  skipsDefaultRoute subPath frs key = Throw e ↔
    e = TypeError
    ∧ startsWithDefault subPath = true
    ∧ ∃ f, frs = Some f
           ∧ frs_parallelRoutes f !! key = None
           ∧ (key ∉ objectPrototypeKeys ∨ ∃ name, f = InheritedProperty name).
Proof.
  unfold skipsDefaultRoute.
  destruct (startsWithDefault subPath); [|split; [done|by intros (_ & ? & _)]].
  destruct frs as [f|]; [|split; [done|by intros (_ & _ & f & ? & _)]].
  destruct f as [segment routes url refresh root|name]; cbn.
  - unfold getProperty. destruct (routes !! key) as [own|] eqn:Hown.
    { split; [done|]. intros (_ & _ & f' & [= <-] & Hnone & _).
      cbn in Hnone. congruence. }
    destruct (bool_decide_reflect (key ∈ objectPrototypeKeys)) as [Hin|Hnotin].
    + split; [done|]. intros (_ & _ & f' & [= <-] & _ & [?|[name ?]]); done.
    + split.
      * intros [= <-]. split; [done|]. split; [done|].
        eexists. split; [done|]. split; [done|by left].
      * by intros (-> & _).
  - split.
    + intros [= <-]. split; [done|]. split; [done|].
      eexists. split; [done|]. split; [apply lookup_empty|]. right. by exists name.
    + by intros (-> & _).
Qed.

Lemma skipsDefaultRoute_returns subPath frs key b :
  skipsDefaultRoute subPath frs key = Return b → isSuppressedDefault frs key subPath = b.
Proof.
  unfold skipsDefaultRoute, isSuppressedDefault.
  destruct (startsWithDefault subPath); [|by intros [= <-]].
  destruct frs as [f|]; [|by intros [= <-]].
  destruct f as [segment routes url refresh root|name]; cbn; [|done].
  unfold getProperty. destruct (routes !! key) as [own|]; [by intros [= <-]|].
  destruct (bool_decide _); [by intros [= <-]|done].
Qed.


Lemma pushSubPaths_returns actual frs key subPaths :
  ∀ paths out,
    pushSubPaths actual frs key subPaths paths = Return out →
    out = paths ++ keptSubPaths actual frs key subPaths.
Proof.
  unfold keptSubPaths.
  induction subPaths as [|subPath rest IH]; intros paths out; cbn [pushSubPaths].
  - intros [= <-]. by rewrite app_nil_r.
  - destruct (skipsDefaultRoute subPath frs key) as [[|]|e] eqn:Hskip; [| |done];
      apply skipsDefaultRoute_returns in Hskip; intros Hout; apply IH in Hout as ->.
    + rewrite filter_cons. rewrite decide_False by (by rewrite Hskip). done.
    + rewrite filter_cons. rewrite decide_True by done.
      cbn [fmap list_fmap]. by rewrite <- app_assoc.
Qed.



(** A read of a missing entry.  The level does not render, the read of the
    router state's entry for the key of its first parallel route finds
    nothing (no own entry, and no property of [Object.prototype] of that
    name), and the segment of that route is the default segment; the
    renderer does not throw.  The call on the route renders, its sub-path
    starts with the default segment, and the test on it throws. *)
Lemma missing_entry_read_throws segment key route rest modules a h f :
  flightRouterState a = Some f →
  parentRendered a = false →
  startsRendering (LoaderTreeNode segment ((key, route) :: rest) modules) a = false →
  parallelRouteEntry f key = Return None →
  actualSegmentOf route a = SegmentString DEFAULT_SEGMENT_KEY →
  (∀ args h', ∃ seedData, createComponentTree args h' = inl seedData) →
  completion
    (walkTreeWithFlightRouterState
       (LoaderTreeNode segment ((key, route) :: rest) modules) a h)
  = Throw TypeError.
Proof.
  intros Hfrs Hparent Hstart Hmiss Hdefault Hrender.
  set (t := LoaderTreeNode segment ((key, route) :: rest) modules) in *.
  assert (Hhere : rendersHere t a = false)
    by (unfold startsRendering in Hstart; by rewrite Hparent in Hstart).
  rewrite walk_run, Hstart. cbn [lt_modules lt_parallelRoutes t].
  destruct (setsWithCurrentLayout_returns a modules h)
    as (css & js & fonts & h1 & -> & _).
  rewrite loop_run_cons.
  assert (Hread : readChildRouterState (flightRouterState a) key = Return None)
    by (by rewrite Hfrs).
  rewrite Hread.
  set (a' := childArgs a modules (segmentParamOf t a) (rendersHere t a) css js fonts key).
  assert (Hnone : flightRouterState a' = None)
    by (cbn; by apply childRouterState_read).
  assert (Hstart' : startsRendering route a' = true).
  { unfold startsRendering, rendersHere. rewrite Hnone. cbn. by rewrite Hparent, Hhere. }
  assert (Hfirst : ∀ seed head,
            pushSubPaths (actualSegmentOf t a) (flightRouterState a) key
              [flightDataSegment route a' seed head] [] = Throw TypeError).
  { intros seed head. cbn [pushSubPaths]. unfold skipsDefaultRoute, flightDataSegment.
    rewrite Hnone. cbn [overriddenSegment startsWithDefault].
    change (actualSegmentOf route a') with (actualSegmentOf route a).
    rewrite Hdefault, bool_decide_eq_true_2 by done. by rewrite Hfrs, Hmiss. }
  rewrite walk_run, Hstart', render_run.
  destruct (shouldSkipComponentTree (ctx a') route).
  - by rewrite Hfirst.
  - cbn zeta. destruct (Hrender (componentTreeArgs a' route (segmentParamOf route a')) h1)
      as [seedData ->].
    by rewrite Hfirst.
Qed.

(** *** The injected asset sets *)

(** When the loop returns, every parallel route was walked with the
    arguments of [childArgs], from a heap that kept the sets of the level. *)
Lemma loop_child_calls a modules sp actual rh css js fonts h1 routes :
  ∀ paths hk out h' tr,
    extends h1 hk →
    walkParallelRoutes a modules sp actual rh css js fonts routes paths hk
      = (Return out, h', tr) →
    ∀ key route, (key, route) ∈ routes →
      ∃ hk', EvWalk route (childArgs a modules sp rh css js fonts key) hk' ∈ tr
             ∧ extends h1 hk'.
Proof.
  induction routes as [|[key0 route0] rest IH]; intros paths hk out h' tr Hhk Hrun key route Hin.
  - by apply elem_of_nil in Hin.
  - rewrite loop_run_cons in Hrun.
    destruct (readChildRouterState _ key0) as [child|e]; [|done].
    pose proof (walk_frame route0 (childArgs a modules sp rh css js fonts key0) hk) as Hfr.
    destruct (walk_trace_head route0 (childArgs a modules sp rh css js fonts key0) hk)
      as [tl Hhead].
    destruct (walkTreeWithFlightRouterState route0 _ hk) as [[[subPaths|e] hk1] tr1];
      [|done].
    destruct (pushSubPaths _ _ _ _ _) as [paths'|e]; [|done].
    destruct (walkParallelRoutes _ _ _ _ _ _ _ _ _ _ hk1) as [[r h2] tr2] eqn:Hrest.
    injection Hrun as -> _ <-. cbn in Hhead, Hfr. subst tr1.
    apply elem_of_cons in Hin as [[= -> ->]|Hin].
    + exists hk. split; [left | done].
    + destruct (IH paths' hk1 out h2 tr2) with (key := key) (route := route)
        as (hk' & Hev & Hext); [by eapply extends_trans|done|done|].
      exists hk'. split; [|done]. apply elem_of_app. by right.
Qed.

(** Below a call, every invocation finds in its sets what the sets of the
    call held. *)
Lemma walk_sees_assets t a h :
  allocated a h →
  Forall
    (seesAssets (contents h (injectedCSS a)) (contents h (injectedJS a))
       (contents h (injectedFontPreloadTags a)))
    (trace (walkTreeWithFlightRouterState t a h)).
Proof.
  intros Halloc.
  set (C := contents h (injectedCSS a)).
  set (J := contents h (injectedJS a)).
  set (F := contents h (injectedFontPreloadTags a)).
  eapply Forall_impl;
    [apply (walk_calls_invariant (λ _ a' h', allocated a' h' ∧ seesAssets C J F (EvWalk t a' h')))|].
  - intros t' a' h' css js fonts h1 hk key route (Hal & HC & HJ & HF) _ Hsets Hext _.
    destruct (setsWithCurrentLayout_run a' (lt_modules t') h')
      as (css' & js' & fonts' & h1' & Hrun & _ & _ & Hdom & _ & Hcont).
    rewrite Hsets in Hrun. injection Hrun as <- <- <- <-.
    destruct (Hcont Hal) as (Hc & Hj & Hf).
    assert (Hin : css ∈ dom h1 ∧ js ∈ dom h1 ∧ fonts ∈ dom h1)
      by (rewrite Hdom; set_solver).
    destruct Hin as (Hic & Hij & Hif).
    pose proof (extends_dom _ _ Hext) as Hsub.
    split; [repeat split; cbn; by apply Hsub|].
    cbn. rewrite !(extends_contents h1 hk) by done. rewrite Hc, Hj, Hf.
    set_solver.
  - split; [exact Halloc|]. cbn. done.
  - intros [t' a' h'|args outcome]; cbn.
    + by intros [_ ?].
    + intros (t' & a' & h' & (_ & HC & HJ & HF) & _ & -> & ->). by exists h'.
Qed.

(** C4, as the code has it: a level that does not render copies the three
    sets it received into three new sets, different from every set there was
    and from each other, and adds the assets of its layout; the copies hold
    what the received sets held and these assets.  The same three copies go
    to every parallel route: when the level returns, each route was walked
    with them, and found in them what the level left there.  No call writes
    to a set that existed when it started; and every invocation below finds
    in its sets what the sets of the call held. *)
Theorem sets_passed_to_children_C4 t a h :
  startsRendering t a = false →
  allocated a h →
  ∃ css js fonts h1,
    setsWithCurrentLayout a (lt_modules t) h = (Return (css, js, fonts), h1, [])
    ∧ (css ∉ dom h ∧ js ∉ dom h ∧ fonts ∉ dom h)
    ∧ (css ≠ js ∧ css ≠ fonts ∧ js ≠ fonts)
    ∧ (contents h1 css = contents h (injectedCSS a) ∪ layoutCSS a (lt_modules t)
       ∧ contents h1 js = contents h (injectedJS a) ∪ layoutJS a (lt_modules t)
       ∧ contents h1 fonts
         = contents h (injectedFontPreloadTags a) ∪ layoutFonts a (lt_modules t))
    ∧ (∀ paths,
         completion (walkTreeWithFlightRouterState t a h) = Return paths →
         ∀ key route, (key, route) ∈ lt_parallelRoutes t →
           ∃ a' hk,
             EvWalk route a' hk ∈ trace (walkTreeWithFlightRouterState t a h)
             ∧ a' = childArgs a (lt_modules t) (segmentParamOf t a) (rendersHere t a)
                      css js fonts key
             ∧ (injectedCSS a' = css ∧ injectedJS a' = js
                ∧ injectedFontPreloadTags a' = fonts)
             ∧ (contents hk css = contents h1 css
                ∧ contents hk js = contents h1 js
                ∧ contents hk fonts = contents h1 fonts))
    ∧ extends h (heapAfter (walkTreeWithFlightRouterState t a h))
    ∧ Forall
        (seesAssets (contents h (injectedCSS a)) (contents h (injectedJS a))
           (contents h (injectedFontPreloadTags a)))
        (trace (walkTreeWithFlightRouterState t a h)).
Proof.
  intros Hstart Halloc.
  destruct (setsWithCurrentLayout_run a (lt_modules t) h)
    as (css & js & fonts & h1 & Hsets & Hfresh & Hne & Hdom & Hext & Hcont).
  exists css, js, fonts, h1.
  split; [exact Hsets|]. split; [exact Hfresh|]. split; [exact Hne|].
  split; [by apply Hcont|].
  split; [|split; [apply walk_frame | by apply walk_sees_assets]].
  intros paths Hret key route Hin.
  rewrite walk_run, Hstart, Hsets in Hret |- *.
  destruct (walkParallelRoutes _ _ _ _ _ _ _ _ _ _ h1) as [[r h2] tr2] eqn:Hloop.
  cbn in Hret. subst r.
  destruct (loop_child_calls _ _ _ _ _ _ _ _ h1 _ _ _ _ _ _ (extends_refl h1) Hloop
              key route Hin) as (hk & Hev & Hhk).
  eexists _, hk. split; [cbn; right; exact Hev|]. split; [reflexivity|].
  split; [done|].
  assert (Hin' : css ∈ dom h1 ∧ js ∈ dom h1 ∧ fonts ∈ dom h1)
    by (rewrite Hdom; set_solver).
  destruct Hin' as (Hic & Hij & Hif).
  by rewrite !(extends_contents h1 hk).
Qed.

End Properties.

(** * The invocations of a run, by position *)

Section WalkPositionsProperties.
Context `{CB : Collaborators}.

Lemma loop_run_app a modules sp actual rh css js fonts pre post :
  ∀ paths h,
    walkParallelRoutes a modules sp actual rh css js fonts (pre ++ post) paths h =
    match walkParallelRoutes a modules sp actual rh css js fonts pre paths h with
    | (Return paths', h1, tr1) =>
        let '(r, h2, tr2) :=
          walkParallelRoutes a modules sp actual rh css js fonts post paths' h1 in
        (r, h2, tr1 ++ tr2)
    | (Throw e, h1, tr1) => (Throw e, h1, tr1)
    end.
Proof.
  induction pre as [|[key route] rest IH]; intros paths h.
  - cbn. by destruct (walkParallelRoutes _ _ _ _ _ _ _ _ _ _ h) as [[r h2] tr2].
  - rewrite <- app_comm_cons, !loop_run_cons.
    destruct (readChildRouterState _ key) as [child|e]; [|done].
    destruct (walkTreeWithFlightRouterState route _ h) as [[[subPaths|e] h1] tr1]; [|done].
    destruct (pushSubPaths _ _ _ _ _) as [paths'|e]; [|done].
    rewrite IH.
    destruct (walkParallelRoutes _ _ _ _ _ _ _ _ rest _ h1) as [[[paths''|e] h2] tr2];
      [|done].
    destruct (walkParallelRoutes _ _ _ _ _ _ _ _ post _ h2) as [[r h3] tr3].
    by rewrite app_assoc.
Qed.

(** The trace of the loop starts with the trace of the call on the first
    parallel route. *)
Lemma loop_trace_first a modules sp actual rh css js fonts key route rest paths h child :
  readChildRouterState (flightRouterState a) key = Return child →
  ∃ tl,
    trace (walkParallelRoutes a modules sp actual rh css js fonts ((key, route) :: rest)
             paths h)
    = trace (walkTreeWithFlightRouterState route
               (childArgs a modules sp rh css js fonts key) h) ++ tl.
Proof.
  intros Hread. rewrite loop_run_cons, Hread.
  destruct (walkTreeWithFlightRouterState route _ h) as [[[subPaths|e] h1] tr1];
    [|exists []; by rewrite app_nil_r].
  destruct (pushSubPaths _ _ _ _ _) as [paths'|e]; [|exists []; by rewrite app_nil_r].
  destruct (walkParallelRoutes _ _ _ _ _ _ _ _ _ _ h1) as [[r h2] tr2]. by exists tr2.
Qed.

Lemma callOnParallelRoute_Some t a h i route a' hk :
  callOnParallelRoute t a h i = Some (route, a', hk) ↔
    startsRendering t a = false
    ∧ ∃ css js fonts h1 key paths tr child,
        setsWithCurrentLayout a (lt_modules t) h = (Return (css, js, fonts), h1, [])
        ∧ lt_parallelRoutes t !! i = Some (key, route)
        ∧ walkParallelRoutes a (lt_modules t) (segmentParamOf t a) (actualSegmentOf t a)
            (rendersHere t a) css js fonts (take i (lt_parallelRoutes t)) [] h1
          = (Return paths, hk, tr)
        ∧ readChildRouterState (flightRouterState a) key = Return child
        ∧ a' = childArgs a (lt_modules t) (segmentParamOf t a) (rendersHere t a)
                 css js fonts key.
Proof.
  unfold callOnParallelRoute.
  destruct (setsWithCurrentLayout_returns a (lt_modules t) h)
    as (css & js & fonts & h1 & Hsets & _).
  rewrite Hsets. split.
  - destruct (startsRendering t a); [done|].
    destruct (lt_parallelRoutes t !! i) as [[key route']|]; [|done].
    destruct (walkParallelRoutes _ _ _ _ _ _ _ _ _ _ h1) as [[[paths|e] hk'] tr] eqn:Hpre;
      [|done].
    destruct (readChildRouterState _ key) as [child|e] eqn:Hread; [|done].
    intros [= -> <- <-]. split; [done|].
    by exists css, js, fonts, h1, key, paths, tr, child.
  - intros (-> & css' & js' & fonts' & h1' & key & paths & tr & child
            & [= <- <- <- <-] & -> & -> & -> & ->). done.
Qed.

Lemma callAt_cons i below t a h c :
  callAt (i :: below) t a h = Some c ↔
    ∃ route a' hk,
      callOnParallelRoute t a h i = Some (route, a', hk)
      ∧ callAt below route a' hk = Some c.
Proof.
  cbn [callAt]. destruct (callOnParallelRoute t a h i) as [[[route a'] hk]|]; split.
  - intros Hc. by exists route, a', hk.
  - by intros (route' & a'' & hk' & [= <- <- <-] & Hc).
  - done.
  - by intros (route' & a'' & hk' & ? & _).
Qed.

(** What the invocation on a parallel route records is part of the trace
    of the call that makes it. *)
Lemma callOnParallelRoute_trace t a h i route a' hk e :
  callOnParallelRoute t a h i = Some (route, a', hk) →
  e ∈ trace (walkTreeWithFlightRouterState route a' hk) →
  e ∈ trace (walkTreeWithFlightRouterState t a h).
Proof.
  intros (Hstart & css & js & fonts & h1 & key & paths & tr & child
          & Hsets & Hroute & Hpre & Hread & ->)%callOnParallelRoute_Some He.
  rewrite walk_run, Hstart, Hsets.
  rewrite <- (take_drop_middle _ _ _ Hroute), loop_run_app, Hpre.
  destruct (loop_trace_first a (lt_modules t) (segmentParamOf t a) (actualSegmentOf t a)
              (rendersHere t a) css js fonts key route (drop (S i) (lt_parallelRoutes t))
              paths hk child Hread) as [tl Htl].
  destruct (walkParallelRoutes _ _ _ _ _ _ _ _ (_ :: _) _ hk) as [[r h2] tr2].
  cbn [trace snd] in Htl |- *. subst tr2.
  cbn [app]. right. rewrite !elem_of_app. right. by left.
Qed.

(** The invocation at a position is in the trace, and so is the invocation
    of the renderer it makes. *)
Lemma callAt_in_trace position :
  ∀ t a h c,
    callAt position t a h = Some c →
    EvWalk c.1.1 c.1.2 c.2 ∈ trace (walkTreeWithFlightRouterState t a h)
    ∧ (invokesRenderer c = true →
       rendererEvent c ∈ trace (walkTreeWithFlightRouterState t a h)).
Proof.
  induction position as [|i below IH]; intros t a h c.
  - intros [= <-]. cbn [fst snd]. split.
    + destruct (walk_trace_head t a h) as [tl ->]. left.
    + unfold invokesRenderer. cbn [fst snd]. intros [Hstart Hskip]%andb_true_iff.
      apply negb_true_iff in Hskip.
      rewrite walk_run, Hstart, render_run, Hskip. cbn. right. left.
  - intros (route & a' & hk & Hcall & Hc)%callAt_cons.
    destruct (IH _ _ _ _ Hc) as [Hwalk Hrender].
    split; [|intros Hinv]; eapply callOnParallelRoute_trace; eauto.
Qed.

(** The node at a position and the levels above it. *)
Lemma callAt_lineage position :
  ∀ t a h c,
    callAt position t a h = Some c → Lineage t (lineageAt position t) c.1.1.
Proof.
  induction position as [|i below IH]; intros t a h c.
  - intros [= <-]. constructor.
  - intros (route & a' & hk & Hcall & Hc)%callAt_cons.
    apply callOnParallelRoute_Some in Hcall
      as (_ & css & js & fonts & h1 & key & paths & tr & child & _ & Hroute & _).
    cbn [lineageAt]. rewrite Hroute.
    econstructor; [by eapply list_elem_of_lookup_2 | by eapply IH].
Qed.

(** The params of the invocation at a position are those of the call after
    the levels above the position. *)
Lemma callAt_params position :
  ∀ t a h c,
    callAt position t a h = Some c →
    ctx c.1.2 = ctx a
    ∧ parentParams c.1.2
      = paramsAlong (getDynamicParamFromSegment (ctx a)) (segmentsAbove position t)
          (parentParams a).
Proof.
  induction position as [|i below IH]; intros t a h c.
  - by intros [= <-].
  - intros (route & a' & hk & Hcall & Hc)%callAt_cons.
    apply callOnParallelRoute_Some in Hcall
      as (_ & css & js & fonts & h1 & key & paths & tr & child & _ & Hroute & _ & _ & ->).
    destruct (IH _ _ _ _ Hc) as [Hctx Hparams].
    split; [exact Hctx|]. rewrite Hparams.
    unfold segmentsAbove. cbn [lineageAt]. rewrite Hroute. reflexivity.
Qed.

(** Every event of a trace is the invocation of the walk at some position,
    or the invocation of the renderer it makes. *)
Lemma loop_events_positioned t a h css js fonts h1 :
  startsRendering t a = false →
  setsWithCurrentLayout a (lt_modules t) h = (Return (css, js, fonts), h1, []) →
  ∀ post pre paths hk tr,
    lt_parallelRoutes t = pre ++ post →
    walkParallelRoutes a (lt_modules t) (segmentParamOf t a) (actualSegmentOf t a)
      (rendersHere t a) css js fonts pre [] h1 = (Return paths, hk, tr) →
    ∀ e,
      e ∈ trace (walkParallelRoutes a (lt_modules t) (segmentParamOf t a)
                   (actualSegmentOf t a) (rendersHere t a) css js fonts post paths hk) →
      ∃ i route a' hk',
        callOnParallelRoute t a h i = Some (route, a', hk')
        ∧ (∃ key, (key, route) ∈ post)
        ∧ e ∈ trace (walkTreeWithFlightRouterState route a' hk').
Proof.
  intros Hstart Hsets.
  induction post as [|[key route] rest IH]; intros pre paths hk tr Hroutes Hpre e.
  - cbn. by intros ?%elem_of_nil.
  - rewrite loop_run_cons.
    destruct (readChildRouterState _ key) as [child|e'] eqn:Hread;
      [|cbn; by intros ?%elem_of_nil].
    assert (Hcall : callOnParallelRoute t a h (length pre)
                    = Some (route,
                            childArgs a (lt_modules t) (segmentParamOf t a)
                              (rendersHere t a) css js fonts key, hk)).
    { apply callOnParallelRoute_Some. split; [done|].
      exists css, js, fonts, h1, key, paths, tr, child.
      rewrite Hroutes, take_app_length. split; [done|].
      split; [by apply list_lookup_middle|done]. }
    destruct (walkTreeWithFlightRouterState route _ hk) as [[[subPaths|e'] hk1] tr1]
      eqn:Hchild.
    2:{ intros He. eexists _, _, _, _. split; [exact Hcall|].
        split; [exists key; left|]. by rewrite Hchild. }
    destruct (pushSubPaths _ _ _ _ _) as [paths'|e'] eqn:Hpush.
    2:{ intros He. eexists _, _, _, _. split; [exact Hcall|].
        split; [exists key; left|]. by rewrite Hchild. }
    specialize (IH (pre ++ [(key, route)]) paths' hk1 (tr ++ tr1 ++ [])).
    destruct (walkParallelRoutes _ _ _ _ _ _ _ _ rest _ hk1) as [[r h2] tr2].
    cbn [trace snd]. intros [He|He]%elem_of_app.
    + eexists _, _, _, _. split; [exact Hcall|].
      split; [exists key; left|]. by rewrite Hchild.
    + destruct (IH) with (e := e) as (i & route' & a' & hk' & Hcall' & [key' Hin] & He').
      * by rewrite <- app_assoc.
      * rewrite loop_run_app, Hpre, loop_run_cons, Hread, Hchild, Hpush. reflexivity.
      * exact He.
      * exists i, route', a', hk'. split; [done|]. split; [|done].
        exists key'. by right.
Qed.

Lemma walk_events_positioned t :
  ∀ a h e,
    e ∈ trace (walkTreeWithFlightRouterState t a h) →
    ∃ position c,
      callAt position t a h = Some c
      ∧ (e = EvWalk c.1.1 c.1.2 c.2 ∨ (invokesRenderer c = true ∧ e = rendererEvent c)).
Proof.
  induction t as [segment routes modules IH] using LoaderTree_ind'. intros a h e.
  set (t := LoaderTreeNode segment routes modules) in *.
  rewrite walk_run. destruct (startsRendering t a) eqn:Hstart.
  - rewrite render_run.
    destruct (shouldSkipComponentTree (ctx a) t) eqn:Hskip; cbn [trace snd].
    + intros ->%list_elem_of_singleton. exists [], (t, a, h). split; [done|by left].
    + intros [->|He]%elem_of_cons; [exists [], (t, a, h); split; [done|by left]|].
      apply list_elem_of_singleton in He as ->.
      exists [], (t, a, h). split; [done|]. right.
      unfold invokesRenderer. cbn [fst snd]. by rewrite Hstart, Hskip.
  - destruct (setsWithCurrentLayout_returns a (lt_modules t) h)
      as (css & js & fonts & h1 & Hsets & _).
    rewrite Hsets.
    pose proof (loop_events_positioned t a h css js fonts h1 Hstart Hsets
                  (lt_parallelRoutes t) [] [] h1 [] eq_refl eq_refl e) as Hloop.
    destruct (walkParallelRoutes _ _ _ _ _ _ _ _ _ _ h1) as [[r h2] tr2].
    cbn [trace snd app]. intros [->|He]%elem_of_cons;
      [exists [], (t, a, h); split; [done|by left]|].
    destruct (Hloop He) as (i & route & a' & hk' & Hcall & [key Hin] & He').
    assert (Hroute : ∀ a h e,
              e ∈ trace (walkTreeWithFlightRouterState route a h) →
              ∃ position c,
                callAt position route a h = Some c
                ∧ (e = EvWalk c.1.1 c.1.2 c.2
                   ∨ (invokesRenderer c = true ∧ e = rendererEvent c))).
    { exact (proj1 (Forall_forall _ _) IH (key, route) Hin). }
    destruct (Hroute _ _ _ He') as (position & c & Hc & Hev).
    exists (i :: position), c. split; [|exact Hev].
    apply callAt_cons. by exists route, a', hk'.
Qed.

Lemma cssAlong_cons a t key lineage :
  cssAlong a ((t, key) :: lineage) = layoutCSS a (lt_modules t) ∪ cssAlong a lineage.
Proof. reflexivity. Qed.

Lemma jsAlong_cons a t key lineage :
  jsAlong a ((t, key) :: lineage) = layoutJS a (lt_modules t) ∪ jsAlong a lineage.
Proof. reflexivity. Qed.

Lemma fontsAlong_cons a t key lineage :
  fontsAlong a ((t, key) :: lineage)
  = layoutFonts a (lt_modules t) ∪ fontsAlong a lineage.
Proof. reflexivity. Qed.

Lemma assetsAlong_ctx a a' lineage :
  ctx a' = ctx a →
  cssAlong a' lineage = cssAlong a lineage
  ∧ jsAlong a' lineage = jsAlong a lineage
  ∧ fontsAlong a' lineage = fontsAlong a lineage.
Proof.
  intros Hctx. unfold cssAlong, jsAlong, fontsAlong, layoutCSS, layoutJS, layoutFonts.
  by rewrite Hctx.
Qed.

(** The sets of the invocation at a position hold what the sets of the call
    held and the assets of the layouts of the levels above the position. *)
Lemma callAt_assets position :
  ∀ t a h c,
    allocated a h →
    callAt position t a h = Some c →
    allocated c.1.2 c.2
    ∧ contents c.2 (injectedCSS c.1.2)
      = contents h (injectedCSS a) ∪ cssAlong a (lineageAt position t)
    ∧ contents c.2 (injectedJS c.1.2)
      = contents h (injectedJS a) ∪ jsAlong a (lineageAt position t)
    ∧ contents c.2 (injectedFontPreloadTags c.1.2)
      = contents h (injectedFontPreloadTags a) ∪ fontsAlong a (lineageAt position t).
Proof.
  induction position as [|i below IH]; intros t a h c Halloc.
  - intros [= <-]. cbn [fst snd lineageAt]. split; [exact Halloc|].
    unfold cssAlong, jsAlong, fontsAlong. cbn. by rewrite !(right_id_L ∅ (∪)).
  - intros (route & a' & hk & Hcall & Hc)%callAt_cons.
    apply callOnParallelRoute_Some in Hcall
      as (_ & css & js & fonts & h1 & key & paths & tr & child
          & Hsets & Hroute & Hpre & _ & ->).
    destruct (setsWithCurrentLayout_run a (lt_modules t) h)
      as (css' & js' & fonts' & h1' & Hrun & _ & _ & Hdom & _ & Hcont).
    rewrite Hsets in Hrun. injection Hrun as <- <- <- <-.
    destruct (Hcont Halloc) as (HC & HJ & HF).
    assert (Hin : css ∈ dom h1 ∧ js ∈ dom h1 ∧ fonts ∈ dom h1)
      by (rewrite Hdom; set_solver).
    destruct Hin as (Hic & Hij & Hif).
    assert (Hext : extends h1 hk).
    { pose proof (loop_frame a (lt_modules t) (segmentParamOf t a) (actualSegmentOf t a)
                    (rendersHere t a) css js fonts (take i (lt_parallelRoutes t))) as Hfr.
      specialize (Hfr ltac:(apply Forall_forall; intros kc _ a0 h0; apply walk_frame)
                    [] h1).
      by rewrite Hpre in Hfr. }
    pose proof (extends_dom _ _ Hext) as Hsub.
    set (a' := childArgs a (lt_modules t) (segmentParamOf t a) (rendersHere t a)
                 css js fonts key) in *.
    assert (Halloc' : allocated a' hk) by (repeat split; cbn; by apply Hsub).
    destruct (IH _ _ _ _ Halloc' Hc) as (Hal & HC' & HJ' & HF').
    destruct (assetsAlong_ctx a a' (lineageAt below route) eq_refl) as (-> & -> & ->)
      in HC', HJ', HF'.
    split; [exact Hal|].
    cbn [lineageAt]. rewrite Hroute, cssAlong_cons, jsAlong_cons, fontsAlong_cons.
    rewrite HC', HJ', HF'. cbn [injectedCSS injectedJS injectedFontPreloadTags a' childArgs].
    rewrite !(extends_contents h1 hk) by done. rewrite HC, HJ, HF.
    by rewrite !(assoc_L (∪)).
Qed.

(** C8, as the code has it: the params of a level are those of its parent
    with the one binding of the level added when the resolver gives one with
    a value, and the parent's otherwise; so no name is ever removed on the
    way down.  The invocation at a position is given the params of the call
    extended by the levels above that position, and hands the renderer these
    extended by its own level, whatever other branches were walked before:
    every name bound with a value by one of these levels is bound, to the
    value given at the deepest level that binds it (a deeper binding of the
    same name replaces the shallower one).  Every invocation of the renderer
    in the trace is the one made at some position. *)
Theorem params_accumulate_C8 :
  (∀ (sp : option DynamicParam) (params : Params),
     (∀ d v, sp = Some d → value d = Some v →
             currentParams sp params = <[param d := v]> params)
     ∧ (sp = None ∨ (∃ d, sp = Some d ∧ value d = None) →
        currentParams sp params = params)
     ∧ dom params ⊆ dom (currentParams sp params))
  ∧ (∀ t a h,
       Forall (λ ev, dom (parentParams a) ⊆ dom (eventParams ev))
         (trace (walkTreeWithFlightRouterState t a h)))
  ∧ (∀ t a h position c,
       callAt position t a h = Some c →
       let segments := segmentsAbove position t ++ [lt_segment c.1.1] in
       let resolve := getDynamicParamFromSegment (ctx a) in
       parentParams c.1.2
       = paramsAlong resolve (segmentsAbove position t) (parentParams a)
       ∧ ct_parentParams (rendererArgs c) = paramsAlong resolve segments (parentParams a)
       ∧ (invokesRenderer c = true →
          rendererEvent c ∈ trace (walkTreeWithFlightRouterState t a h))
       ∧ ∀ i segment d v,
           segments !! i = Some segment →
           resolve segment = Some d →
           value d = Some v →
           param d ∈ dom (ct_parentParams (rendererArgs c))
           ∧ ((∀ j segment' d', i < j → segments !! j = Some segment' →
                 resolve segment' = Some d' → is_Some (value d') →
                 param d' ≠ param d) →
              ct_parentParams (rendererArgs c) !! param d = Some v))
  ∧ (∀ t a h args outcome,
       EvRender args outcome ∈ trace (walkTreeWithFlightRouterState t a h) →
       ∃ position c,
         callAt position t a h = Some c
         ∧ invokesRenderer c = true
         ∧ EvRender args outcome = rendererEvent c).
Proof.
  split; [|split; [|split]].
  - intros sp params. split; [|split].
    + intros d v -> Hv. unfold currentParams. by rewrite Hv.
    + intros [->|(d & -> & Hv)]; [done|]. unfold currentParams. by rewrite Hv.
    + apply currentParams_dom.
  - intros t a h. apply Forall_forall. intros e He.
    destruct (walk_events_positioned t a h e He) as (position & c & Hc & Hev).
    destruct (callAt_params position t a h c Hc) as [Hctx Hparams].
    destruct Hev as [->|[_ ->]]; cbn.
    + rewrite Hparams. apply paramsAlong_dom.
    + rewrite Hparams. etrans; [apply paramsAlong_dom | apply currentParams_dom].
  - intros t a h position c Hc. cbn zeta.
    destruct (callAt_params position t a h c Hc) as [Hctx Hparams].
    assert (Heq : ct_parentParams (rendererArgs c)
                  = paramsAlong (getDynamicParamFromSegment (ctx a))
                      (segmentsAbove position t ++ [lt_segment c.1.1]) (parentParams a)).
    { rewrite paramsAlong_snoc. cbn. unfold segmentParamOf. by rewrite Hctx, Hparams. }
    split; [exact Hparams|]. split; [exact Heq|].
    split; [apply (callAt_in_trace position t a h c Hc)|].
    intros i segment d v Hi Hd Hv. rewrite Heq.
    by apply (paramsAlong_binding _ _ _ i segment d v).
  - intros t a h args outcome Hin.
    destruct (walk_events_positioned t a h _ Hin) as (position & c & Hc & [?|[Hinv ->]]);
      [done|].
    by exists position, c.
Qed.

End WalkPositionsProperties.

(** * More properties of the walk *)

Section WalkResultsProperties.
Context `{CB : Collaborators}.

(** ** What every invocation is given *)

(** The context, the head, the metadata signal and the preload callbacks of
    a call reach every invocation of the walk below it unchanged, and every
    invocation of the renderer is given that context, signal and callbacks,
    with [authInterrupts] read from that context. *)
Theorem walk_context_unchanged t a h :
  Forall (eventCarries a) (trace (walkTreeWithFlightRouterState t a h)).
Proof.
  eapply Forall_impl;
    [apply (walk_calls_invariant (λ _ a' _, eventCarries a (EvWalk t a' h)))|].
  - intros t' a' h' css js fonts h1 hk key route Ha' _ _ _ _. exact Ha'.
  - cbn. done.
  - intros [t' a' h'|args outcome]; [done|].
    intros (t' & a' & h' & (Hctx & _ & Hmeta & Hpre) & _ & -> & _). cbn.
    by rewrite Hctx, Hmeta, Hpre.
Qed.

(** [parentRendered || renderComponentsOnThisLevel] is passed down only by a
    level that does not render, where it equals [parentRendered]: every
    invocation of the walk below a call has the [parentRendered] of the call,
    and the renderer is invoked only below a call with [parentRendered]
    false. *)
Theorem parentRendered_constant t a h :
  (∀ t' a' h', EvWalk t' a' h' ∈ trace (walkTreeWithFlightRouterState t a h) →
               parentRendered a' = parentRendered a)
  ∧ (∀ args outcome,
       EvRender args outcome ∈ trace (walkTreeWithFlightRouterState t a h) →
       parentRendered a = false).
Proof.
  assert (Hall : Forall (eventSatisfies (λ _ a' _, parentRendered a' = parentRendered a))
                   (trace (walkTreeWithFlightRouterState t a h))).
  { apply walk_calls_invariant; [|done].
    intros t' a' h' css js fonts h1 hk key route Ha' Hstart _ _ _. cbn.
    unfold startsRendering in Hstart. rewrite <- Ha'.
    destruct (parentRendered a'); [done|]. cbn in Hstart. by rewrite Hstart. }
  split.
  - intros t' a' h' Hin. exact (proj1 (Forall_forall _ _) Hall _ Hin).
  - intros args outcome Hin.
    destruct (proj1 (Forall_forall _ _) Hall _ Hin) as (t' & a' & h' & Ha' & Hstart & _).
    unfold startsRendering in Hstart. rewrite <- Ha'.
    by destruct (parentRendered a').
Qed.

(** ** Where the renderer runs *)

Lemma loop_renders_unskipped a modules sp actual rh css js fonts routes :
  Forall (λ kc : string * LoaderTree,
            ∀ a h args outcome,
              EvRender args outcome ∈ trace (walkTreeWithFlightRouterState kc.2 a h) →
              shouldSkipComponentTree (ct_ctx args) (ct_loaderTree args) = false)
         routes →
  ∀ paths h args outcome,
    EvRender args outcome
    ∈ trace (walkParallelRoutes a modules sp actual rh css js fonts routes paths h) →
    shouldSkipComponentTree (ct_ctx args) (ct_loaderTree args) = false.
Proof.
  induction 1 as [|[key route] rest Hroute _ IH]; intros paths h args outcome.
  - cbn. by intros ?%elem_of_nil.
  - rewrite loop_run_cons.
    specialize (Hroute (childArgs a modules sp rh css js fonts key) h args outcome).
    cbn [snd] in Hroute.
    destruct (readChildRouterState _ key) as [child|e]; [|cbn; by intros ?%elem_of_nil].
    destruct (walkTreeWithFlightRouterState route _ h) as [[[subPaths|e] h1] tr1];
      [|exact Hroute].
    destruct (pushSubPaths _ _ _ _ _) as [paths'|e]; [|exact Hroute].
    specialize (IH paths' h1 args outcome).
    destruct (walkParallelRoutes _ _ _ _ _ _ _ _ _ _ h1) as [[r h2] tr2].
    cbn in *. intros [Hin|Hin]%elem_of_app; auto.
Qed.

Lemma walk_renders_unskipped t :
  ∀ a h args outcome,
    EvRender args outcome ∈ trace (walkTreeWithFlightRouterState t a h) →
    shouldSkipComponentTree (ct_ctx args) (ct_loaderTree args) = false.
Proof.
  induction t as [segment routes modules IH] using LoaderTree_ind'.
  intros a h args outcome. set (t := LoaderTreeNode segment routes modules) in *.
  rewrite walk_run. destruct (startsRendering t a).
  - rewrite render_run. destruct (shouldSkipComponentTree (ctx a) t) eqn:Hskip; cbn.
    + intros Hin. apply list_elem_of_singleton in Hin. done.
    + intros Hin. apply elem_of_cons in Hin as [Hin|Hin]; [done|].
      apply list_elem_of_singleton in Hin. injection Hin as -> _. exact Hskip.
  - cbn [lt_modules lt_parallelRoutes t].
    destruct (setsWithCurrentLayout_returns a modules h)
      as (css & js & fonts & h1 & -> & _).
    pose proof (loop_renders_unskipped a modules (segmentParamOf t a)
                  (actualSegmentOf t a) (rendersHere t a) css js fonts routes IH
                  [] h1 args outcome) as Hloop.
    destruct (walkParallelRoutes _ _ _ _ _ _ _ _ _ _ h1) as [[r h2] tr2].
    cbn in *. intros Hin. apply elem_of_cons in Hin as [Hin|Hin]; [done|auto].
Qed.

(** The renderer is invoked only on a slice whose component tree is not
    skipped.  So a request for the route tree only, with PPR off, never
    reaches the renderer, at any level, and does not end with a failure of
    the renderer. *)
Theorem route_tree_request_never_renders t a h :
  (∀ args outcome,
     EvRender args outcome ∈ trace (walkTreeWithFlightRouterState t a h) →
     shouldSkipComponentTree (ctx a) (ct_loaderTree args) = false)
  ∧ (isRoutePPREnabled (experimental (renderOpts (ctx a))) = false →
     isRouteTreePrefetchRequest (parsedRequestHeaders (ctx a)) = true →
     renderCalls (trace (walkTreeWithFlightRouterState t a h)) = []
     ∧ ∀ e, completion (walkTreeWithFlightRouterState t a h) ≠ Throw (RendererThrew e)).
Proof.
  assert (Hunskipped : ∀ args outcome,
            EvRender args outcome ∈ trace (walkTreeWithFlightRouterState t a h) →
            shouldSkipComponentTree (ctx a) (ct_loaderTree args) = false).
  { intros args outcome Hin.
    pose proof (walk_calls_invariant (λ _ a' _, ctx a' = ctx a)
                  ltac:(by intros) t a h eq_refl) as Hall.
    destruct (proj1 (Forall_forall _ _) Hall _ Hin) as (t' & a' & h' & Hctx & _ & Hargs & _).
    rewrite <- Hctx. replace (ctx a') with (ct_ctx args) by (by rewrite Hargs).
    by eapply walk_renders_unskipped. }
  split; [exact Hunskipped|]. intros Hppr Htree.
  assert (Hnone : ∀ args outcome,
            EvRender args outcome ∉ trace (walkTreeWithFlightRouterState t a h)).
  { intros args outcome Hin. apply Hunskipped in Hin.
    unfold shouldSkipComponentTree in Hin. by rewrite Hppr, Htree in Hin. }
  split.
  - destruct (renderCalls _) as [|args rest] eqn:Hcalls; [done|]. exfalso.
    assert (Hin : args ∈ renderCalls (trace (walkTreeWithFlightRouterState t a h)))
      by (rewrite Hcalls; left).
    apply list_elem_of_omap in Hin as ([t' a' h'|args' outcome] & Hin & Heq); [done|].
    by apply (Hnone args' outcome).
  - intros e He. pose proof (walk_failure_final t a h) as Hfinal.
    unfold rendererFailureIsFinal in Hfinal. rewrite He in Hfinal.
    destruct Hfinal as (pre & args & Htr & _).
    apply (Hnone args (inr e)). rewrite Htr. apply elem_of_app. right. left.
Qed.

End WalkResultsProperties.

Section WalkPathsProperties.
Context `{CB : Collaborators}.

(** ** The paths of the result *)

Lemma isPathOf_mono t a tr tr' path :
  (∀ e, e ∈ tr → e ∈ tr') → isPathOf t a tr path → isPathOf t a tr' path.
Proof.
  intros Hsub (lineage & n & seedData & head & Hlin & Hpath & Hleaf).
  exists lineage, n, seedData, head. split; [done|]. split; [done|].
  destruct Hleaf as [Hskip|(Hskip & seed & args & H1 & H2 & H3 & Hin)]; [by left|].
  right. split; [done|]. exists seed, args. auto.
Qed.

(** A path of the call on a parallel route, behind the segment of the level
    and the key, is a path of the level. *)
Lemma isPathOf_below t a css js fonts key route tr path :
  (key, route) ∈ lt_parallelRoutes t →
  isPathOf route
    (childArgs a (lt_modules t) (segmentParamOf t a) (rendersHere t a) css js fonts key)
    tr path →
  isPathOf t a tr (FSegment (actualSegmentOf t a) :: FKey key :: path).
Proof.
  intros Hin (lineage & n & seedData & head & Hlin & -> & Hleaf).
  exists ((t, key) :: lineage), n, seedData, head.
  split; [by eapply Lineage_below|]. split; [reflexivity|]. exact Hleaf.
Qed.

Lemma loop_paths t a css js fonts routes :
  (∀ kc, kc ∈ routes → kc ∈ lt_parallelRoutes t) →
  Forall (λ kc : string * LoaderTree,
            ∀ a h paths h' tr,
              walkTreeWithFlightRouterState kc.2 a h = (Return paths, h', tr) →
              Forall (isPathOf kc.2 a tr) paths) routes →
  ∀ paths hk out h' tr pre,
    walkParallelRoutes a (lt_modules t) (segmentParamOf t a) (actualSegmentOf t a)
      (rendersHere t a) css js fonts routes paths hk = (Return out, h', tr) →
    Forall (isPathOf t a pre) paths →
    Forall (isPathOf t a (pre ++ tr)) out.
Proof.
  intros Hsub Hall. revert Hsub.
  induction Hall as [|[key route] rest Hroute _ IH];
    intros Hsub paths hk out h' tr pre Hrun Hpaths.
  - injection Hrun as <- _ <-. by rewrite app_nil_r.
  - rewrite loop_run_cons in Hrun.
    destruct (readChildRouterState _ key) as [read|e]; [|done].
    destruct (walkTreeWithFlightRouterState route _ hk) as [[[subPaths|e] h1] tr1]
      eqn:Hchild; [|done].
    destruct (pushSubPaths _ _ _ _ _) as [paths'|e] eqn:Hpush; [|done].
    apply pushSubPaths_returns in Hpush as ->.
    destruct (walkParallelRoutes _ _ _ _ _ _ _ _ _ _ h1) as [[r h2] tr2] eqn:Hrest.
    injection Hrun as -> _ <-. rewrite app_assoc.
    eapply IH; [intros kc Hkc; apply Hsub; by right | exact Hrest |].
    apply Forall_app. split.
    + eapply Forall_impl; [exact Hpaths|]. intros path. apply isPathOf_mono.
      intros e He. apply elem_of_app. by left.
    + apply Hroute in Hchild. cbn [snd] in Hchild. unfold keptSubPaths.
      apply Forall_fmap. apply Forall_forall. intros subPath Hin.
      apply list_elem_of_filter in Hin as [_ Hin].
      pose proof (proj1 (Forall_forall _ _) Hchild _ Hin) as Hsp.
      cbn. apply (isPathOf_mono _ _ tr1); [intros e He; apply elem_of_app; by right|].
      eapply isPathOf_below; [apply Hsub; left | exact Hsp].
Qed.

Lemma walk_paths t :
  ∀ a h paths h' tr,
    walkTreeWithFlightRouterState t a h = (Return paths, h', tr) →
    Forall (isPathOf t a tr) paths.
Proof.
  induction t as [segment routes modules IH] using LoaderTree_ind'.
  intros a h paths h' tr. set (t := LoaderTreeNode segment routes modules) in *.
  rewrite walk_run. destruct (startsRendering t a).
  - rewrite render_run.
    destruct (shouldSkipComponentTree (ctx a) t) eqn:Hskip; cbn zeta.
    + intros [= <- _ <-]. constructor; [|constructor].
      exists [], t, None, None. split; [constructor|]. split; [reflexivity|]. by left.
    + destruct (createComponentTree _ h) as [seed|e] eqn:Hseed; [|done].
      intros [= <- _ <-]. constructor; [|constructor].
      exists [], t, (Some seed), (Some (rscPayloadHead a)).
      split; [constructor|]. split; [reflexivity|]. right. split; [done|].
      exists seed, (componentTreeArgs a t (segmentParamOf t a)).
      repeat split. right. left.
  - destruct (setsWithCurrentLayout_returns a (lt_modules t) h)
      as (css & js & fonts & h1 & -> & _).
    destruct (walkParallelRoutes _ _ _ _ _ _ _ _ _ _ h1) as [[r h2] tr2] eqn:Hloop.
    intros [= -> _ <-].
    apply (loop_paths t a css js fonts routes) with (pre := [EvWalk t a h]) in Hloop;
      [exact Hloop | done | exact IH | constructor].
Qed.


(** The two kinds of result.  With PPR on, every path of the result carries
    seed data that the renderer returned and the head of the call.  For a
    request for the route tree only with PPR off, every path carries neither
    seed data nor head. *)
Theorem seed_data_by_request_kind t a h paths :
  completion (walkTreeWithFlightRouterState t a h) = Return paths →
  (isRoutePPREnabled (experimental (renderOpts (ctx a))) = true →
   Forall (λ path, ∃ items seed,
             path = items ++ [FSeed (Some seed); FHead (Some (rscPayloadHead a));
                              FBool false]
             ∧ ∃ args, EvRender args (inl seed)
                       ∈ trace (walkTreeWithFlightRouterState t a h)) paths)
  ∧ (isRoutePPREnabled (experimental (renderOpts (ctx a))) = false →
     isRouteTreePrefetchRequest (parsedRequestHeaders (ctx a)) = true →
     Forall (λ path, ∃ items, path = items ++ [FSeed None; FHead None; FBool false])
       paths).
Proof.
  intros Hret. pose proof (walk_paths t a h) as Hrun.
  destruct (walkTreeWithFlightRouterState t a h) as [[r h'] tr].
  cbn in Hret. subst r. specialize (Hrun paths h' tr eq_refl).
  cbn [trace snd]. split.
  - intros Hppr. eapply Forall_impl; [exact Hrun|].
    intros path (lineage & n & seedData & head & _ & -> & Hleaf).
    destruct Hleaf as [(Hskip & _)|(_ & seed & args & -> & -> & _ & Hin)].
    { unfold shouldSkipComponentTree in Hskip. by rewrite Hppr in Hskip. }
    eexists (pathPrefix a lineage ++ [_; _]), seed. split; [|by exists args].
    unfold flightDataSegmentAt. by rewrite <- app_assoc.
  - intros Hppr Htree. eapply Forall_impl; [exact Hrun|].
    intros path (lineage & n & seedData & head & _ & -> & Hleaf).
    destruct Hleaf as [(_ & -> & ->)|(Hskip & _)].
    + eexists (pathPrefix a lineage ++ [_; _]).
      unfold flightDataSegmentAt. by rewrite <- app_assoc.
    + unfold shouldSkipComponentTree in Hskip. by rewrite Hppr, Htree in Hskip.
Qed.

End WalkPathsProperties.

Section WalkTotalProperties.
Context `{CB : Collaborators}.

(** ** When the walk cannot throw a [TypeError] *)

Lemma covers_routes segment routes modules f :
  covers (LoaderTreeNode segment routes modules) f = true ↔
  Forall (λ kc : string * LoaderTree,
            ∃ child, frs_parallelRoutes f !! kc.1 = Some child
                     ∧ covers kc.2 child = true) routes.
Proof.
  cbn [covers]. induction routes as [|[key route] rest IH].
  - split; [constructor|done].
  - rewrite andb_true_iff, IH, Forall_cons. cbn [fst snd].
    destruct (frs_parallelRoutes f !! key) as [child|].
    + split; [intros [? ?]; split; [by exists child|done] |].
      intros [(child' & [= <-] & ?) ?]. done.
    + split; [by intros [? _] | by intros [(child' & ? & _) _]].
Qed.

Lemma pushSubPaths_total actual frs key subPaths :
  (∀ f, frs = Some f → is_Some (frs_parallelRoutes f !! key)) →
  ∀ paths, ∃ out, pushSubPaths actual frs key subPaths paths = Return out.
Proof.
  intros Hentry. induction subPaths as [|subPath rest IH]; intros paths;
    cbn [pushSubPaths]; [by exists paths|].
  destruct (skipsDefaultRoute subPath frs key) as [[|]|e] eqn:Hskip; [apply IH..|].
  exfalso. apply skipsDefaultRoute_throws_iff in Hskip as (_ & _ & f & Hf & Hnone & _).
  destruct (Hentry f Hf) as [child Hchild]. congruence.
Qed.

Lemma loop_no_type_error a modules sp actual rh css js fonts routes :
  Forall (λ kc : string * LoaderTree,
            (∀ f, flightRouterState a = Some f →
                  ∃ child, frs_parallelRoutes f !! kc.1 = Some child
                           ∧ covers kc.2 child = true)
            ∧ ∀ a h, (∀ f, flightRouterState a = Some f → covers kc.2 f = true) →
                     completion (walkTreeWithFlightRouterState kc.2 a h)
                     ≠ Throw TypeError) routes →
  ∀ paths h,
    completion (walkParallelRoutes a modules sp actual rh css js fonts routes paths h)
    ≠ Throw TypeError.
Proof.
  induction 1 as [|[key route] rest [Hentry Hroute] _ IH]; intros paths h; [done|].
  rewrite loop_run_cons. cbn [fst snd] in *.
  specialize (Hroute (childArgs a modules sp rh css js fonts key) h).
  destruct (readChildRouterState _ key) as [read|e] eqn:Hread.
  2:{ apply readChildRouterState_throws in Hread as [_ [name Hname]].
      destruct (Hentry _ Hname) as (child & Hchild & _).
      cbn [frs_parallelRoutes] in Hchild. by rewrite lookup_empty in Hchild. }
  destruct (walkTreeWithFlightRouterState route _ h) as [[[subPaths|e] h1] tr1].
  - destruct (pushSubPaths_total actual (flightRouterState a) key subPaths) with (paths := paths)
      as [paths' ->].
    { intros f Hf. destruct (Hentry f Hf) as (child & -> & _). by eexists. }
    specialize (IH paths' h1).
    by destruct (walkParallelRoutes _ _ _ _ _ _ _ _ _ _ h1) as [[r h2] tr2].
  - apply Hroute. cbn. rewrite (childRouterState_read _ _ _ Hread). intros f ->.
    destruct (flightRouterState a) as [f0|]; [|done]. cbn in Hread.
    destruct (Hentry f0 eq_refl) as (child & Hchild & Hcov).
    rewrite (parallelRouteEntry_own _ _ _ Hchild) in Hread. congruence.
Qed.

Lemma walk_no_type_error t :
  ∀ a h, (∀ f, flightRouterState a = Some f → covers t f = true) →
         completion (walkTreeWithFlightRouterState t a h) ≠ Throw TypeError.
Proof.
  induction t as [segment routes modules IH] using LoaderTree_ind'.
  intros a h Hcov. set (t := LoaderTreeNode segment routes modules) in *.
  rewrite walk_run. destruct (startsRendering t a).
  - rewrite render_run. destruct (shouldSkipComponentTree _ _); [done|].
    cbn zeta. by destruct (createComponentTree _ h).
  - cbn [lt_modules lt_parallelRoutes t].
    destruct (setsWithCurrentLayout_returns a modules h)
      as (css & js & fonts & h1 & -> & _).
    pose proof (loop_no_type_error a modules (segmentParamOf t a) (actualSegmentOf t a)
                  (rendersHere t a) css js fonts routes) as Hloop.
    specialize (Hloop ltac:(
      apply Forall_forall; intros kc Hkc; split;
        [intros f Hf; apply Hcov, covers_routes in Hf;
         exact (proj1 (Forall_forall _ _) Hf _ Hkc)
        | exact (proj1 (Forall_forall _ _) IH _ Hkc)]) [] h1).
    by destruct (walkParallelRoutes _ _ _ _ _ _ _ _ _ _ h1) as [[r h2] tr2].
Qed.

(** When the router state, if there is one, has an entry for every parallel
    route of the loader tree at every level, the walk does not throw a
    [TypeError]: it returns, unless the renderer throws; and it returns
    whenever the renderer never throws. *)
Theorem covered_router_state_is_safe t a h :
  (∀ f, flightRouterState a = Some f → covers t f = true) →
  completion (walkTreeWithFlightRouterState t a h) ≠ Throw TypeError
  ∧ ((∀ args h', ∃ seedData, createComponentTree args h' = inl seedData) →
     ∃ paths, completion (walkTreeWithFlightRouterState t a h) = Return paths).
Proof.
  intros Hcov. pose proof (walk_no_type_error t a h Hcov) as Hno.
  split; [exact Hno|]. intros Hrender.
  destruct (completion (walkTreeWithFlightRouterState t a h)) as [paths|[|e]] eqn:Hc;
    [by exists paths | done | exfalso].
  pose proof (walk_failure_final t a h) as Hfinal.
  unfold rendererFailureIsFinal in Hfinal. rewrite Hc in Hfinal.
  destruct Hfinal as (pre & args & Htr & _).
  assert (Hin : EvRender args (inr e) ∈ trace (walkTreeWithFlightRouterState t a h))
    by (rewrite Htr; apply elem_of_app; right; left).
  pose proof (walk_calls_invariant (λ _ _ _, True) ltac:(done) t a h I) as Hall.
  destruct (proj1 (Forall_forall _ _) Hall _ Hin) as (t' & a' & h' & _ & _ & _ & Hout).
  destruct (Hrender args h') as [seedData Hseed]. congruence.
Qed.

(** ** How much a call does *)

Lemma walkCalls_app tr1 tr2 : walkCalls (tr1 ++ tr2) = walkCalls tr1 ++ walkCalls tr2.
Proof. apply omap_app. Qed.

Lemma renderCalls_app tr1 tr2 : renderCalls (tr1 ++ tr2) = renderCalls tr1 ++ renderCalls tr2.
Proof. apply omap_app. Qed.

Lemma walkCalls_cons_walk t a h tr :
  walkCalls (EvWalk t a h :: tr) = (t, a) :: walkCalls tr.
Proof. reflexivity. Qed.

Lemma renderCalls_cons_walk t a h tr :
  renderCalls (EvWalk t a h :: tr) = renderCalls tr.
Proof. reflexivity. Qed.

Lemma pushSubPaths_length actual frs key subPaths :
  ∀ paths out,
    pushSubPaths actual frs key subPaths paths = Return out →
    length out ≤ length paths + length subPaths.
Proof.
  intros paths out Hpush. apply pushSubPaths_returns in Hpush as ->.
  unfold keptSubPaths. rewrite length_app, length_fmap.
  pose proof (length_filter (λ subPath, isSuppressedDefault frs key subPath = false) subPaths).
  lia.
Qed.

Lemma loop_bounded a modules sp actual rh css js fonts routes :
  Forall (λ kc : string * LoaderTree,
            ∀ a h,
              let out := walkTreeWithFlightRouterState kc.2 a h in
              length (walkCalls (trace out)) ≤ lt_size kc.2
              ∧ length (renderCalls (trace out)) ≤ length (walkCalls (trace out))
              ∧ ∀ paths, completion out = Return paths →
                         length paths ≤ length (walkCalls (trace out))) routes →
  ∀ paths h,
    let out := walkParallelRoutes a modules sp actual rh css js fonts routes paths h in
    length (walkCalls (trace out)) ≤ routes_size routes
    ∧ length (renderCalls (trace out)) ≤ length (walkCalls (trace out))
    ∧ ∀ paths', completion out = Return paths' →
                length paths' ≤ length paths + length (walkCalls (trace out)).
Proof.
  induction 1 as [|[key route] rest Hroute _ IH]; intros paths h; cbn zeta.
  - cbn. repeat split; [lia..|]. intros paths' [= <-]. lia.
  - rewrite loop_run_cons, routes_size_cons.
    specialize (Hroute (childArgs a modules sp rh css js fonts key) h).
    cbn zeta in Hroute. cbn [snd] in Hroute.
    destruct (readChildRouterState _ key) as [read|e];
      [|cbn; repeat split; [lia..|done]].
    destruct (walkTreeWithFlightRouterState route _ h) as [[[subPaths|e] h1] tr1].
    + destruct Hroute as (Hw & Hr & Hp). specialize (Hp subPaths eq_refl).
      cbn [trace completion fst snd] in *.
      destruct (pushSubPaths _ _ _ _ _) as [paths1|e] eqn:Hpush.
      * apply pushSubPaths_length in Hpush.
        specialize (IH paths1 h1). cbn zeta in IH.
        destruct (walkParallelRoutes _ _ _ _ _ _ _ _ _ _ h1) as [[r h2] tr2].
        cbn [trace completion fst snd] in *. destruct IH as (Hw2 & Hr2 & Hp2).
        rewrite walkCalls_app, renderCalls_app, !length_app.
        repeat split; [lia..|]. intros paths' Hret. specialize (Hp2 paths' Hret). lia.
      * cbn [trace completion fst snd]. repeat split; [lia..|done].
    + destruct Hroute as (Hw & Hr & _). cbn [trace completion fst snd] in *.
      repeat split; [lia..|done].
Qed.

Lemma walk_counts t :
  ∀ a h,
    let out := walkTreeWithFlightRouterState t a h in
    length (walkCalls (trace out)) ≤ lt_size t
    ∧ length (renderCalls (trace out)) ≤ length (walkCalls (trace out))
    ∧ ∀ paths, completion out = Return paths →
               length paths ≤ length (walkCalls (trace out)).
Proof.
  induction t as [segment routes modules IH] using LoaderTree_ind'.
  intros a h. cbn zeta.
  pose proof (lt_size_node segment routes modules) as Hsize.
  set (t := LoaderTreeNode segment routes modules) in *.
  rewrite walk_run, Hsize. destruct (startsRendering t a).
  - rewrite render_run.
    destruct (shouldSkipComponentTree _ _); cbn zeta.
    + cbn. repeat split; [lia..|]. intros paths [= <-]. cbn. lia.
    + cbn. repeat split; [lia..|].
      destruct (createComponentTree _ h); [|done]. intros paths [= <-]. cbn. lia.
  - cbn [lt_modules lt_parallelRoutes t].
    destruct (setsWithCurrentLayout_returns a modules h)
      as (css & js & fonts & h1 & -> & _).
    pose proof (loop_bounded a modules (segmentParamOf t a) (actualSegmentOf t a)
                  (rendersHere t a) css js fonts routes IH [] h1) as Hloop.
    cbn zeta in Hloop.
    destruct (walkParallelRoutes _ _ _ _ _ _ _ _ _ _ h1) as [[r h2] tr2].
    cbn [trace completion fst snd app] in *. destruct Hloop as (Hw & Hr & Hp).
    rewrite walkCalls_cons_walk, renderCalls_cons_walk. cbn [length].
    repeat split; [lia..|]. intros paths Hret. specialize (Hp paths Hret).
    cbn [length] in Hp. lia.
Qed.

(** ** Each invocation of the renderer follows its invocation of the walk *)

Lemma rendersFollowWalks_head tr :
  rendersFollowWalks tr → tr = [] ∨ ∃ t a h rest, tr = EvWalk t a h :: rest.
Proof.
  destruct tr as [|[t a h|args outcome] rest]; [by left| |done].
  intros _. right. by exists t, a, h, rest.
Qed.

Lemma rendersFollowWalks_cons t a h tr :
  rendersFollowWalks tr → rendersFollowWalks (EvWalk t a h :: tr).
Proof.
  intros Htr. destruct (rendersFollowWalks_head tr Htr) as [->|(t' & a' & h' & rest & ->)];
    [done|exact Htr].
Qed.

Lemma rendersFollowWalks_app tr1 tr2 :
  rendersFollowWalks tr2 →
  rendersFollowWalks tr1 → rendersFollowWalks (tr1 ++ tr2).
Proof.
  intros Htr2.
  assert (Hboth : (rendersFollowWalks tr1 → rendersFollowWalks (tr1 ++ tr2))
                  ∧ ∀ e, rendersFollowWalks (e :: tr1) →
                         rendersFollowWalks (e :: tr1 ++ tr2)); [|apply Hboth].
  induction tr1 as [|e0 tr1 [IH1 IH2]].
  - split; [done|]. intros [t a h|args outcome]; [|done].
    intros _. by apply rendersFollowWalks_cons.
  - split; [apply IH2|].
    intros [t a h|args outcome]; [|done].
    destruct e0 as [t0 a0 h0|args0 outcome0].
    + intros Htr1. change (rendersFollowWalks (EvWalk t0 a0 h0 :: tr1 ++ tr2)).
      apply IH2. exact Htr1.
    + intros (Hev & Hinv & Hrest). cbn. split; [done|]. split; [done|]. by apply IH1.
Qed.

Lemma loop_renders_follow a modules sp actual rh css js fonts routes :
  Forall (λ kc : string * LoaderTree,
            ∀ a h, rendersFollowWalks (trace (walkTreeWithFlightRouterState kc.2 a h)))
         routes →
  ∀ paths h,
    rendersFollowWalks
      (trace (walkParallelRoutes a modules sp actual rh css js fonts routes paths h)).
Proof.
  induction 1 as [|[key route] rest Hroute _ IH]; intros paths h; [done|].
  rewrite loop_run_cons.
  destruct (readChildRouterState _ key) as [child|e]; [|done].
  specialize (Hroute (childArgs a modules sp rh css js fonts key) h). cbn [snd] in Hroute.
  destruct (walkTreeWithFlightRouterState route _ h) as [[[subPaths|e] h1] tr1];
    [|exact Hroute].
  destruct (pushSubPaths _ _ _ _ _) as [paths'|e]; [|exact Hroute].
  specialize (IH paths' h1).
  destruct (walkParallelRoutes _ _ _ _ _ _ _ _ _ _ h1) as [[r h2] tr2].
  by apply rendersFollowWalks_app.
Qed.

Lemma walk_renders_follow t :
  ∀ a h, rendersFollowWalks (trace (walkTreeWithFlightRouterState t a h)).
Proof.
  induction t as [segment routes modules IH] using LoaderTree_ind'. intros a h.
  set (t := LoaderTreeNode segment routes modules) in *.
  rewrite walk_run. destruct (startsRendering t a) eqn:Hstart.
  - rewrite render_run.
    destruct (shouldSkipComponentTree (ctx a) t) eqn:Hskip; [done|].
    cbn. split; [done|]. split; [|done].
    unfold invokesRenderer. cbn [fst snd]. by rewrite Hstart, Hskip.
  - cbn [lt_modules lt_parallelRoutes t].
    destruct (setsWithCurrentLayout_returns a modules h)
      as (css & js & fonts & h1 & -> & _).
    pose proof (loop_renders_follow a modules (segmentParamOf t a) (actualSegmentOf t a)
                  (rendersHere t a) css js fonts routes IH [] h1) as Hloop.
    destruct (walkParallelRoutes _ _ _ _ _ _ _ _ _ _ h1) as [[r h2] tr2].
    cbn [trace snd app] in *. by apply rendersFollowWalks_cons.
Qed.

(** ** Each position is visited once *)

Lemma loop_visits_once t a h css js fonts h1 :
  startsRendering t a = false →
  setsWithCurrentLayout a (lt_modules t) h = (Return (css, js, fonts), h1, []) →
  ∀ post,
    Forall (λ kc : string * LoaderTree,
              ∀ a h, visitsEachPositionOnce kc.2 a h
                       (trace (walkTreeWithFlightRouterState kc.2 a h))) post →
    ∀ pre paths hk tr,
      lt_parallelRoutes t = pre ++ post →
      walkParallelRoutes a (lt_modules t) (segmentParamOf t a) (actualSegmentOf t a)
        (rendersHere t a) css js fonts pre [] h1 = (Return paths, hk, tr) →
      ∃ positions : list (list nat),
        NoDup positions
        ∧ Forall (λ position, ∃ i below, position = i :: below ∧ length pre ≤ i) positions
        ∧ Forall2 (λ position ta, ∃ c, callAt position t a h = Some c ∧ ta = c.1)
            positions
            (walkCalls
               (trace (walkParallelRoutes a (lt_modules t) (segmentParamOf t a)
                         (actualSegmentOf t a) (rendersHere t a) css js fonts
                         post paths hk))).
Proof.
  intros Hstart Hsets post Hall.
  induction Hall as [|[key route] rest Hroute _ IH]; intros pre paths hk tr Hroutes Hpre.
  - exists []. split; [constructor|]. split; constructor.
  - rewrite loop_run_cons.
    destruct (readChildRouterState _ key) as [child|e'] eqn:Hread;
      [|exists []; split; [constructor|]; split; constructor].
    set (a' := childArgs a (lt_modules t) (segmentParamOf t a) (rendersHere t a)
                 css js fonts key).
    assert (Hcall : callOnParallelRoute t a h (length pre) = Some (route, a', hk)).
    { apply callOnParallelRoute_Some. split; [done|].
      exists css, js, fonts, h1, key, paths, tr, child.
      rewrite Hroutes, take_app_length. split; [done|].
      split; [by apply list_lookup_middle|done]. }
    destruct (Hroute a' hk) as (below & Hnodup & Hbelow). cbn [snd] in Hbelow.
    assert (Hfirst :
              NoDup ((length pre ::.) <$> below)
              ∧ Forall (λ position, ∃ i p, position = i :: p ∧ length pre ≤ i)
                  ((length pre ::.) <$> below)
              ∧ Forall2 (λ position ta, ∃ c, callAt position t a h = Some c ∧ ta = c.1)
                  ((length pre ::.) <$> below)
                  (walkCalls (trace (walkTreeWithFlightRouterState route a' hk)))).
    { split; [apply NoDup_fmap_2; [by intros p q [= ->]|done]|].
      split.
      - apply Forall_fmap, Forall_forall. intros p _. by exists (length pre), p.
      - apply Forall2_fmap_l. eapply Forall2_impl; [exact Hbelow|].
        intros p ta (c & Hc & ->). exists c. split; [|done].
        apply callAt_cons. by exists route, a', hk. }
    destruct (walkTreeWithFlightRouterState route a' hk) as [[[subPaths|e'] hk1] tr1]
      eqn:Hchild; [|by eexists].
    destruct (pushSubPaths _ _ _ _ _) as [paths'|e'] eqn:Hpush; [|by eexists].
    destruct (IH (pre ++ [(key, route)]) paths' hk1 (tr ++ tr1 ++ []))
      as (others & Hnodup' & Hidx & Hothers).
    { by rewrite <- app_assoc. }
    { rewrite loop_run_app, Hpre, loop_run_cons, Hread. fold a'.
      by rewrite Hchild, Hpush. }
    destruct (walkParallelRoutes _ _ _ _ _ _ _ _ rest _ hk1) as [[r h2] tr2].
    cbn [trace snd] in *. destruct Hfirst as (Hn1 & Hi1 & Hf1).
    exists (((length pre ::.) <$> below) ++ others). split; [|split].
    + apply NoDup_app. split; [done|]. split; [|done].
      intros p [q [-> _]]%list_elem_of_fmap Hin.
      destruct (proj1 (Forall_forall _ _) Hidx _ Hin) as (i & p' & [= <- _] & Hle).
      rewrite length_app in Hle. cbn in Hle. lia.
    + apply Forall_app. split; [done|].
      eapply Forall_impl; [exact Hidx|]. intros p (i & p' & -> & Hle).
      exists i, p'. split; [done|]. rewrite length_app in Hle. cbn in Hle. lia.
    + rewrite walkCalls_app. by apply Forall2_app.
Qed.

Lemma walk_visits_once t :
  ∀ a h, visitsEachPositionOnce t a h (trace (walkTreeWithFlightRouterState t a h)).
Proof.
  induction t as [segment routes modules IH] using LoaderTree_ind'. intros a h.
  set (t := LoaderTreeNode segment routes modules) in *.
  assert (Hhere : ∃ c, callAt [] t a h = Some c ∧ (t, a) = c.1) by by exists (t, a, h).
  rewrite walk_run. destruct (startsRendering t a) eqn:Hstart.
  - exists [[]]. split; [apply NoDup_singleton|].
    rewrite render_run. destruct (shouldSkipComponentTree (ctx a) t); cbn;
      by repeat constructor.
  - destruct (setsWithCurrentLayout_returns a (lt_modules t) h)
      as (css & js & fonts & h1 & Hsets & _).
    rewrite Hsets.
    destruct (loop_visits_once t a h css js fonts h1 Hstart Hsets (lt_parallelRoutes t) IH
                [] [] h1 [] eq_refl eq_refl) as (positions & Hnodup & Hidx & Hall).
    destruct (walkParallelRoutes _ _ _ _ _ _ _ _ _ _ h1) as [[r h2] tr2].
    cbn [trace snd app] in *. exists ([] :: positions). split.
    + constructor; [|done]. intros Hin.
      by destruct (proj1 (Forall_forall _ _) Hidx _ Hin) as (i & p & ? & _).
    + rewrite walkCalls_cons_walk. by constructor.
Qed.

(** The invocations of the walk that a call makes are those at pairwise
    different positions of the slice, so no node is visited twice, and there
    are no more of them than the slice has nodes.  In the trace every
    invocation of the renderer comes directly after the invocation of the
    walk that made it, at a level where rendering starts and the component
    tree is not skipped, with the arguments built there and the heap that
    invocation started from; so an invocation of the walk invokes the
    renderer at most once.  When the call returns, it returns no more paths
    than it made invocations of the walk. *)
Theorem walk_is_bounded t a h :
  let out := walkTreeWithFlightRouterState t a h in
  visitsEachPositionOnce t a h (trace out)
  ∧ length (walkCalls (trace out)) ≤ lt_size t
  ∧ rendersFollowWalks (trace out)
  ∧ length (renderCalls (trace out)) ≤ length (walkCalls (trace out))
  ∧ ∀ paths, completion out = Return paths →
             length paths ≤ length (walkCalls (trace out)).
Proof.
  cbn zeta. destruct (walk_counts t a h) as (Hwalks & Hrenders & Hpaths).
  split; [apply walk_visits_once|].
  split; [exact Hwalks|]. split; [apply walk_renders_follow|].
  split; [exact Hrenders | exact Hpaths].
Qed.

End WalkTotalProperties.

Section WalkAssetsProperties.
Context `{CB : Collaborators}.

(** ** The assets above a position *)

(** The sets of the invocation at a position, and so the sets it hands to the
    renderer, hold exactly what the sets of the call held and the assets of
    the layouts of the levels above that position (its own level apart):
    nothing of another branch.  Every invocation of the renderer in the trace
    is the one made at some position, from the heap of the invocation of the
    walk at that position. *)
Theorem renderer_sets_hold_lineage_assets t a h :
  allocated a h →
  (∀ position c,
     callAt position t a h = Some c →
     Lineage t (lineageAt position t) c.1.1
     ∧ (ct_injectedCSS (rendererArgs c) = injectedCSS c.1.2
        ∧ ct_injectedJS (rendererArgs c) = injectedJS c.1.2
        ∧ ct_injectedFontPreloadTags (rendererArgs c) = injectedFontPreloadTags c.1.2)
     ∧ contents c.2 (injectedCSS c.1.2)
       = contents h (injectedCSS a) ∪ cssAlong a (lineageAt position t)
     ∧ contents c.2 (injectedJS c.1.2)
       = contents h (injectedJS a) ∪ jsAlong a (lineageAt position t)
     ∧ contents c.2 (injectedFontPreloadTags c.1.2)
       = contents h (injectedFontPreloadTags a) ∪ fontsAlong a (lineageAt position t))
  ∧ (∀ args outcome,
       EvRender args outcome ∈ trace (walkTreeWithFlightRouterState t a h) →
       ∃ position c,
         callAt position t a h = Some c
         ∧ invokesRenderer c = true
         ∧ EvRender args outcome = rendererEvent c).
Proof.
  intros Halloc. split.
  - intros position c Hc.
    split; [by eapply callAt_lineage|]. split; [done|].
    by apply (callAt_assets position t a h c Halloc Hc).
  - intros args outcome Hin.
    destruct (walk_events_positioned t a h _ Hin) as (position & c & Hc & [?|[Hinv ->]]);
      [done|].
    by exists position, c.
Qed.

End WalkAssetsProperties.

(** * Properties of [isRedirectError] *)

Section RedirectErrorProperties.
Import RedirectError.
Context `{JN : JsNumbers}.

Lemma split_not_nil sep s : split sep s ≠ [].
Proof.
  destruct s as [|c rest]; [done|]. cbn [split].
  destruct (decide (c = sep)); [done|]. by destruct (split sep rest).
Qed.

Lemma split_app_sep sep a b :
  split sep (a +:+ String sep b) = split sep a ++ split sep b.
Proof.
  induction a as [|c a IH].
  - change (EmptyString +:+ String sep b) with (String sep b).
    cbn [split]. by rewrite decide_True.
  - change (String c a +:+ String sep b) with (String c (a +:+ String sep b)).
    cbn [split]. rewrite IH. destruct (decide (c = sep)) as [->|Hne]; [done|].
    pose proof (split_not_nil sep a). by destruct (split sep a).
Qed.

Lemma split_no_sep sep s : hasChar sep s = false → split sep s = [s].
Proof.
  induction s as [|c s IH]; [done|]. cbn [hasChar split].
  intros [Hc Hs]%orb_false_iff. apply bool_decide_eq_false in Hc.
  rewrite decide_False by done. by rewrite IH.
Qed.

Lemma append_empty_r s : s +:+ "" = s.
Proof.
  induction s as [|c s IH]; [done|].
  change (String c s +:+ "") with (String c (s +:+ "")). by rewrite IH.
Qed.

Lemma join_cons_cons sep x y l :
  join sep (x :: y :: l) = x +:+ sep +:+ join sep (y :: l).
Proof. reflexivity. Qed.

(** Splitting at a character and joining with it gives the string back. *)
Lemma join_split sep s : join (String sep EmptyString) (split sep s) = s.
Proof.
  induction s as [|c s IH]; [done|]. cbn [split].
  destruct (decide (c = sep)) as [->|Hne].
  - pose proof (split_not_nil sep s).
    destruct (split sep s) as [|p ps] eqn:Hs; [done|].
    rewrite join_cons_cons, IH. reflexivity.
  - pose proof (split_not_nil sep s).
    destruct (split sep s) as [|p ps] eqn:Hs; [done|].
    destruct ps as [|q ps].
    + cbn in IH |- *. by rewrite IH.
    + rewrite join_cons_cons in IH |- *.
      change (String c p +:+ ?x) with (String c (p +:+ x)). by rewrite IH.
Qed.

(** The fields of a digest of the declared form: the code, the type, the
    fields of the destination, the status and an empty last field. *)
Lemma split_redirectDigest type url status :
  hasChar semicolon type = false →
  hasChar semicolon status = false →
  split semicolon (redirectDigest type url status)
  = [REDIRECT_ERROR_CODE; type] ++ split semicolon url ++ [status; ""].
Proof.
  intros Htype Hstatus.
  change (redirectDigest type url status)
    with (REDIRECT_ERROR_CODE
          +:+ String semicolon
                (type
                 +:+ String semicolon
                       (url +:+ String semicolon (status +:+ String semicolon "")))).
  rewrite !split_app_sep.
  rewrite (split_no_sep _ type), (split_no_sep _ status) by done.
  reflexivity.
Qed.

Lemma slice_middle {A} (a b c d : A) (m : list A) :
  slice 2 (-2) ([a; b] ++ m ++ [c; d]) = m.
Proof.
  unfold slice, relativeIndex. rewrite !length_app. cbn [length].
  replace (Z.of_nat (2 + (length m + 2)) + -2)%Z with (Z.of_nat (2 + length m)) by lia.
  cbn [Z.ltb Z.compare]. rewrite Z.max_l by lia. rewrite Nat2Z.id.
  replace (Nat.min (Z.to_nat 2) (2 + (length m + 2))) with 2 by lia.
  cbn [app drop]. replace (2 + length m - 2) with (length m) by lia.
  rewrite drop_0. by rewrite take_app_length.
Qed.

Lemma at_penultimate {A} (l : list A) (c d : A) : at_ (-2) (l ++ [c; d]) = Some c.
Proof.
  unfold at_. rewrite length_app. cbn [length Z.ltb Z.compare].
  replace (Z.of_nat (length l + 2) + -2)%Z with (Z.of_nat (length l)) by lia.
  destruct (Z.ltb_spec (Z.of_nat (length l)) 0); [lia|].
  destruct (Z.leb_spec (Z.of_nat (length l + 2)) (Z.of_nat (length l))); [lia|].
  cbn [orb]. rewrite Nat2Z.id. by rewrite list_lookup_middle.
Qed.

(** An object whose digest has the declared form, with a type and a status
    that have no semicolon, is a redirect error exactly when the type is
    ['replace'] or ['push'] and the status is a number of
    [RedirectStatusCode].  The destination has no part in it: it may hold
    semicolons. *)
Theorem isRedirectError_declared_digest props type url status :
  hasChar semicolon type = false →
  hasChar semicolon status = false →
  isRedirectError
    (VObject (<["digest" := VString (redirectDigest type url status)]> props))
  = (bool_decide (type = "replace") || bool_decide (type = "push"))
    && isRedirectStatus (Some status).
Proof.
  intros Htype Hstatus. unfold isRedirectError, isRedirectStatus, statusOf.
  rewrite lookup_insert_eq. cbn zeta.
  rewrite (split_redirectDigest type url status Htype Hstatus).
  pose proof (at_penultimate ([REDIRECT_ERROR_CODE; type] ++ split semicolon url)
                status "") as Hat.
  rewrite <- app_assoc in Hat. rewrite Hat.
  cbn [app lookup list_lookup]. rewrite bool_decide_eq_true_2 by done.
  rewrite !andb_true_r, andb_true_l.
  replace (bool_decide (Some type = Some "replace")) with (bool_decide (type = "replace"))
    by (apply bool_decide_ext; split; congruence).
  replace (bool_decide (Some type = Some "push")) with (bool_decide (type = "push"))
    by (apply bool_decide_ext; split; congruence).
  by rewrite andb_assoc.
Qed.

(** The destination read from a digest of the declared form is the
    destination that was put in it, with its semicolons. *)
Theorem destination_round_trip type url status :
  hasChar semicolon type = false →
  hasChar semicolon status = false →
  destinationOf (split semicolon (redirectDigest type url status)) = url
  ∧ statusOf (split semicolon (redirectDigest type url status)) = Some status.
Proof.
  intros Htype Hstatus. rewrite (split_redirectDigest type url status Htype Hstatus).
  unfold destinationOf, statusOf. split.
  - rewrite slice_middle. apply (join_split semicolon).
  - pose proof (at_penultimate ([REDIRECT_ERROR_CODE; type] ++ split semicolon url)
                  status "") as Hat.
    by rewrite <- app_assoc in Hat.
Qed.

(** What is a redirect error is an object with a [digest] that is a string;
    the string starts with the code, a semicolon and ['replace'] or ['push'],
    followed by nothing or by a semicolon; and its field before the last is
    a number of [RedirectStatusCode]. *)
Theorem isRedirectError_sound error :
  isRedirectError error = true →
  ∃ props digestString type tail status,
    error = VObject props
    ∧ props !! "digest" = Some (VString digestString)
    ∧ digestString = REDIRECT_ERROR_CODE +:+ ";" +:+ type +:+ tail
    ∧ (type = "replace" ∨ type = "push")
    ∧ (tail = "" ∨ ∃ rest, tail = ";" +:+ rest)
    ∧ statusOf (split semicolon digestString) = Some status
    ∧ isRedirectStatus (Some status) = true.
Proof.
  unfold isRedirectError. destruct error as [| | | |s| |props]; try done.
  destruct (props !! "digest") as [[| | | |digestString| |]|] eqn:Hdigest; try done.
  cbn zeta. rewrite !andb_true_iff, orb_true_iff, !bool_decide_eq_true.
  intros [[[[Hcode Htype] _] Hnan] Henum].
  pose proof (join_split semicolon digestString) as Hjoin.
  destruct (split semicolon digestString) as [|code [|type rest]] eqn:Hsplit;
    [done| by destruct Htype |].
  injection Hcode as ->.
  assert (Htype' : type = "replace" ∨ type = "push")
    by (destruct Htype as [[= ->]|[= ->]]; auto).
  destruct (statusOf (REDIRECT_ERROR_CODE :: type :: rest)) as [status|] eqn:Hstatus.
  - exists props, digestString, type,
      (match rest with [] => "" | _ => ";" +:+ join ";" rest end), status.
    split; [done|]. split; [done|]. split.
    { rewrite <- Hjoin. destruct rest as [|r rest].
      - rewrite append_empty_r. reflexivity.
      - rewrite !join_cons_cons. reflexivity. }
    split; [done|]. split; [destruct rest; eauto|]. split; [by rewrite Hsplit|].
    unfold isRedirectStatus. by rewrite Hnan, Henum.
  - cbn in Hnan. by rewrite isNaN_NaN in Hnan.
Qed.

(** Without the semicolon at the end, the field before the last is the
    destination: a digest [code;type;url;status] is judged by its
    destination, and its status is not read. *)
Theorem isRedirectError_without_last_semicolon props type url status :
  hasChar semicolon type = false →
  hasChar semicolon url = false →
  hasChar semicolon status = false →
  isRedirectError
    (VObject
       (<["digest" :=
            VString (REDIRECT_ERROR_CODE +:+ ";" +:+ type +:+ ";" +:+ url +:+ ";"
                     +:+ status)]> props))
  = (bool_decide (type = "replace") || bool_decide (type = "push"))
    && isRedirectStatus (Some url).
Proof.
  intros Htype Hurl Hstatus. unfold isRedirectError, isRedirectStatus, statusOf.
  rewrite lookup_insert_eq. cbn zeta.
  change (REDIRECT_ERROR_CODE +:+ ";" +:+ type +:+ ";" +:+ url +:+ ";" +:+ status)
    with (REDIRECT_ERROR_CODE
          +:+ String semicolon (type +:+ String semicolon (url +:+ String semicolon status))).
  rewrite !split_app_sep.
  rewrite (split_no_sep _ type), (split_no_sep _ url), (split_no_sep _ status) by done.
  change (split semicolon REDIRECT_ERROR_CODE) with [REDIRECT_ERROR_CODE].
  cbn [app].
  pose proof (at_penultimate [REDIRECT_ERROR_CODE; type] url status) as Hat.
  cbn [app] in Hat. rewrite Hat.
  cbn [lookup list_lookup]. rewrite bool_decide_eq_true_2 by done.
  rewrite !andb_true_r, andb_true_l.
  replace (bool_decide (Some type = Some "replace")) with (bool_decide (type = "replace"))
    by (apply bool_decide_ext; split; congruence).
  replace (bool_decide (Some type = Some "push")) with (bool_decide (type = "push"))
    by (apply bool_decide_ext; split; congruence).
  by rewrite andb_assoc.
Qed.

End RedirectErrorProperties.

(** * Worked examples on the concrete host *)

Import Demo.

(** The walk on [/dash]: the client has both slots; the sub-path of the slot
    [x] starts with the default segment and is left out. *)
Example default_slot_left_out :
  completion (walkTreeWithFlightRouterState treeWithDefaultSlot argsWithSlot heap0)
  = Return
      [settingsPath].
Proof. vm_compute. reflexivity. Qed.

(** Each branch renders with its own stylesheet and those of the layouts
    above it, not with the stylesheet of the other branch. *)
Example branches_do_not_see_each_other :
  (λ ev, match ev with
         | EvWalk t a h => (lt_segment t, elements (contents h (injectedCSS a)))
         | EvRender args _ => (lt_segment (ct_loaderTree args), [])
         end)
    <$> trace (walkTreeWithFlightRouterState twoBranches argsTwoBranches heap1)
  = [("dash", ["root.css"]);
     ("a", ["root.css"; "dash/layout.css"]);
     ("pageA", ["a/layout.css"; "root.css"; "dash/layout.css"]);
     ("pageA", []);
     ("b", ["root.css"; "dash/layout.css"]);
     ("pageB", ["root.css"; "b/layout.css"; "dash/layout.css"]);
     ("pageB", [])].
Proof. vm_compute. reflexivity. Qed.

(** The renderer at [[z]] is given the three bindings of [/a/[x]/[y]/[z]]. *)
Example nested_params_at_leaf :
  ct_parentParams renderArgsZ
  = {[ "x" := ParamString "1"; "y" := ParamString "2"; "z" := ParamString "3" ]}.
Proof. vm_compute. reflexivity. Qed.

Lemma render_decision_C1_witness :
  parentRendered argsWithSlot = false
  ∧ startsRendering (leaf "settings") argsWithSlot = true.
Proof.
  split; [reflexivity|].
  destruct (render_decision_C1 (leaf "settings") argsWithSlot heap0 eq_refl)
    as (_ & _ & _ & _ & Hleaf).
  apply Hleaf. reflexivity.
Defined.

Lemma prefetch_short_circuit_C2_witness :
  (parentRendered argsPrefetch = false
   ∧ rendersHere treeWithDefaultSlot argsPrefetch = true
   ∧ shouldSkipComponentTree (ctx argsPrefetch) treeWithDefaultSlot = true)
  ∧ walkTreeWithFlightRouterState treeWithDefaultSlot argsPrefetch heap0
    = (Return
         [[FSegment (SegmentString "dash");
           FRouterState (routerStateOf treeWithDefaultSlot);
           FSeed None; FHead None; FBool false]],
       heap0, [EvWalk treeWithDefaultSlot argsPrefetch heap0]).
Proof.
  assert (H1 : parentRendered argsPrefetch = false) by reflexivity.
  assert (H2 : rendersHere treeWithDefaultSlot argsPrefetch = true)
    by (vm_compute; reflexivity).
  assert (H3 : shouldSkipComponentTree (ctx argsPrefetch) treeWithDefaultSlot = true)
    by (vm_compute; reflexivity).
  split; [done|].
  exact (proj2 (prefetch_short_circuit_C2 treeWithDefaultSlot argsPrefetch heap0) H1 H2 H3).
Defined.


Lemma heap1_allocated : allocated argsTwoBranches heap1.
Proof. repeat split; apply elem_of_dom; eexists; vm_compute; reflexivity. Defined.

(** The claim that siblings are given different sets fails: both branches
    of [twoBranches] are walked with the sets at 4, 5 and 6. *)
Lemma siblings_share_sets_counterexample :
  ¬ siblingsReceiveDistinctSets twoBranches
      (trace (walkTreeWithFlightRouterState twoBranches argsTwoBranches heap1)).
Proof.
  intros Hdistinct.
  destruct (Hdistinct "children" branchA (argsBranch "children")
              "x" branchB (argsBranch "x")) as [Hcss _].
  - cbn. left.
  - cbn. right. left.
  - done.
  - apply (list_elem_of_lookup_2 _ 1). vm_compute. reflexivity.
  - apply (list_elem_of_lookup_2 _ 3). vm_compute. reflexivity.
  - apply Hcss. reflexivity.
Qed.

Lemma sets_passed_to_children_C4_witness :
  (startsRendering twoBranches argsTwoBranches = false
   ∧ allocated argsTwoBranches heap1)
  ∧ ∃ css js fonts h1,
      setsWithCurrentLayout argsTwoBranches (lt_modules twoBranches) heap1
      = (Return (css, js, fonts), h1, [])
      ∧ contents h1 css
        = contents heap1 (injectedCSS argsTwoBranches)
          ∪ layoutCSS argsTwoBranches (lt_modules twoBranches)
      ∧ extends heap1
          (heapAfter (walkTreeWithFlightRouterState twoBranches argsTwoBranches heap1)).
Proof.
  assert (H1 : startsRendering twoBranches argsTwoBranches = false)
    by (vm_compute; reflexivity).
  split; [split; [exact H1 | exact heap1_allocated]|].
  destruct (sets_passed_to_children_C4 twoBranches argsTwoBranches heap1 H1 heap1_allocated)
    as (css & js & fonts & h1 & Hsets & _ & _ & (Hcss & _) & _ & Hext & _).
  by exists css, js, fonts, h1.
Defined.

(** C5: the router state of the client has no entry for the slot [x] of the
    loader tree.  The call on the slot is made with no router state, as for
    an absent one, and renders; but the test on its sub-path, which starts
    with the default segment, reads the missing entry and the walk throws. *)
Theorem missing_slot_throws_C5 :
  childRouterState (Some stateWithoutSlot) "x" = None
  ∧ rendersHere (leaf "__DEFAULT__")
      (childArgs argsWithoutSlot (lt_modules treeWithDefaultSlot) None false
         4%positive 5%positive 6%positive "x") = true
  ∧ completion (walkTreeWithFlightRouterState treeWithDefaultSlot argsWithoutSlot heap0)
    = Throw TypeError.
Proof. split; [|split]; vm_compute; reflexivity. Qed.

Lemma no_router_state_full_render_C6_witness :
  (flightRouterState argsNoState = None
   ∧ parentRendered argsNoState = false
   ∧ shouldSkipComponentTree (ctx argsNoState) treeWithDefaultSlot = false
   ∧ createComponentTree
       (componentTreeArgs argsNoState treeWithDefaultSlot
          (segmentParamOf treeWithDefaultSlot argsNoState)) heap0
     = inl "seed:dash")
  ∧ completion (walkTreeWithFlightRouterState treeWithDefaultSlot argsNoState heap0)
    = Return
        [[FSegment (SegmentString "dash");
          FRouterState (routerStateOf treeWithDefaultSlot);
          FSeed (Some "seed:dash"); FHead (Some "head"); FBool false]].
Proof.
  assert (H3 : shouldSkipComponentTree (ctx argsNoState) treeWithDefaultSlot = false)
    by (vm_compute; reflexivity).
  assert (H4 : createComponentTree
                 (componentTreeArgs argsNoState treeWithDefaultSlot
                    (segmentParamOf treeWithDefaultSlot argsNoState)) heap0
               = inl "seed:dash") by (vm_compute; reflexivity).
  split; [done|].
  destruct (no_router_state_full_render_C6 treeWithDefaultSlot argsNoState heap0
              "seed:dash" eq_refl eq_refl H3 H4) as [Hrun _].
  rewrite Hrun. reflexivity.
Defined.

Lemma rootLayoutIncluded_monotone_C7_witness :
  rootLayoutIncluded argsBelowRootLayout = true
  ∧ Forall (λ ev, eventRootLayoutIncluded ev = true)
      (trace (walkTreeWithFlightRouterState twoBranches argsBelowRootLayout heap1)).
Proof.
  split; [reflexivity|].
  apply (proj2 (proj2 (rootLayoutIncluded_monotone_C7 (CB := collaborators)))). reflexivity.
Defined.

Lemma renderArgsZ_in_trace :
  EvRender renderArgsZ (inl "seed:[z]")
  ∈ trace (walkTreeWithFlightRouterState nestedDynamic argsNested heap0).
Proof. apply (list_elem_of_lookup_2 _ 4). vm_compute. reflexivity. Defined.

Lemma renderArgsBoom_in_trace :
  EvRender renderArgsBoom (inr "NEXT_REDIRECT")
  ∈ trace (walkTreeWithFlightRouterState treeWithFailingPage argsWithSlot heap0).
Proof. apply (list_elem_of_lookup_2 _ 2). vm_compute. reflexivity. Defined.

Lemma renderer_failure_propagates_C9_witness :
  EvRender renderArgsBoom (inr "NEXT_REDIRECT")
  ∈ trace (walkTreeWithFlightRouterState treeWithFailingPage argsWithSlot heap0)
  ∧ completion (walkTreeWithFlightRouterState treeWithFailingPage argsWithSlot heap0)
    = Throw (RendererThrew "NEXT_REDIRECT").
Proof.
  split; [exact renderArgsBoom_in_trace|].
  apply (proj1 (renderer_failure_propagates_C9 treeWithFailingPage argsWithSlot heap0
                  renderArgsBoom "NEXT_REDIRECT")).
  exact renderArgsBoom_in_trace.
Defined.


(** * Worked examples for the further properties *)

Import DemoRuns.


(** The test of the [continue] on the entry of a key the client's map lacks
    and [Object.prototype] has: the entry read is the function [Object], its
    index 0 is [undefined], and the sub-path is kept. *)
Example inherited_entry_keeps_default_path :
  skipsDefaultRoute defaultSlotPath (Some stateNoSlots) "constructor" = Return false
  ∧ completion (walkTreeWithFlightRouterState treeConstructorDefault argsNoSlots heap0)
    = Return [FSegment (SegmentString "dash") :: FKey "constructor" :: defaultSlotPath].
Proof. split; vm_compute; reflexivity. Qed.

(** What that call does. *)
Example constructor_slot_run :
  childRouterState (Some stateNoSlots) "constructor"
  = Some (InheritedProperty "constructor")
  ∧ readsRouterStateTuples treeConstructorSlot (Some stateNoSlots) = false
  ∧ completion (walkTreeWithFlightRouterState treeConstructorSlot argsConstructorSlot heap0)
    = Throw TypeError.
Proof. repeat split; vm_compute; reflexivity. Qed.

(** C3: on [treeWithDefaultSlot] with the client state [stateWithoutSlot]
    the call on the slot [x] is made and returns one sub-path.  That
    sub-path starts with the default segment, but the router state has no
    child for the key [x], so it is not one of the sub-paths the
    specification has dropped and should be returned behind the segment and
    the key.  The test on it throws a [TypeError] instead, and the walk
    returns no path at all. *)
Theorem default_slot_not_returned_C3 :
  (∃ hk,
     EvWalk (leaf "__DEFAULT__") argsDefaultSlot hk
     ∈ trace (walkTreeWithFlightRouterState treeWithDefaultSlot argsWithoutSlot heap0))
  ∧ (∀ hk,
       completion (walkTreeWithFlightRouterState (leaf "__DEFAULT__") argsDefaultSlot hk)
       = Return [defaultSlotPath])
  ∧ startsWithDefault defaultSlotPath = true
  ∧ frs_parallelRoutes stateWithoutSlot !! "x" = None
  ∧ isSuppressedDefault (Some stateWithoutSlot) "x" defaultSlotPath = false
  ∧ skipsDefaultRoute defaultSlotPath (Some stateWithoutSlot) "x" = Throw TypeError
  ∧ completion (walkTreeWithFlightRouterState treeWithDefaultSlot argsWithoutSlot heap0)
    = Throw TypeError.
Proof.
  split.
  { exists (heapAfter (setsWithCurrentLayout argsWithoutSlot (withLayout "dash/layout") heap0)).
    apply (list_elem_of_lookup_2 _ 3). vm_compute. reflexivity. }
  split; [intros hk; reflexivity|].
  repeat split; vm_compute; reflexivity.
Qed.

Lemma callSameName_at_position :
  callAt [0] treeSameName argsSameName heap0 = Some callSameName.
Proof.
  unfold callSameName.
  assert (Hsome : match callAt [0] treeSameName argsSameName heap0 with
                  | Some _ => true
                  | None => false
                  end = true) by (vm_compute; reflexivity).
  destruct (callAt [0] treeSameName argsSameName heap0) as [c|];
    [reflexivity | discriminate Hsome].
Qed.

(** On [/[x]/[...x]] the leaf binds the name [x] again: the renderer is
    given the list of the catch-all, and not the value the level [[x]] above
    it bound. *)
Lemma ancestor_binding_replaced_counterexample :
  ¬ rendererHasAncestorBindings treeSameName argsSameName heap0.
Proof.
  intros Hclaim.
  specialize (Hclaim [0] callSameName 0 "[x]"
                {| param := "x"; value := Some (ParamString "1");
                   treeSegment := SegmentTuple "x" "1" "d"; type := "dynamic" |}
                (ParamString "1") callSameName_at_position).
  assert (Hparams : ct_parentParams (rendererArgs callSameName) !! "x"
                    = Some (ParamList ["2"; "3"])) by (vm_compute; reflexivity).
  cbn [param] in Hclaim. rewrite Hparams in Hclaim.
  discriminate Hclaim; vm_compute; reflexivity.
Qed.

Lemma callZ_at_position :
  callAt [0; 0; 0] nestedDynamic argsNested heap0 = Some callZ.
Proof.
  unfold callZ.
  assert (Hsome : match callAt [0; 0; 0] nestedDynamic argsNested heap0 with
                  | Some _ => true
                  | None => false
                  end = true) by (vm_compute; reflexivity).
  destruct (callAt [0; 0; 0] nestedDynamic argsNested heap0) as [c|];
    [reflexivity | discriminate Hsome].
Defined.

Lemma params_accumulate_C8_witness :
  callAt [0; 0; 0] nestedDynamic argsNested heap0 = Some callZ
  ∧ ct_parentParams (rendererArgs callZ)
    = paramsAlong (getDynamicParamFromSegment (ctx argsNested))
        (segmentsAbove [0; 0; 0] nestedDynamic ++ [lt_segment callZ.1.1])
        (parentParams argsNested).
Proof.
  split; [exact callZ_at_position|].
  exact (proj1 (proj2 (proj1 (proj2 (proj2 (params_accumulate_C8 (CB := collaborators))))
                         nestedDynamic argsNested heap0 [0; 0; 0] callZ
                         callZ_at_position))).
Defined.

(** The renderer at [[z]] is the invocation at that position. *)
Example renderer_at_z :
  rendererArgs callZ = renderArgsZ
  ∧ segmentsAbove [0; 0; 0] nestedDynamic ++ [lt_segment callZ.1.1]
    = ["a"; "[x]"; "[y]"; "[z]"].
Proof. split; vm_compute; reflexivity. Qed.

Lemma parentRendered_constant_witness :
  EvRender renderArgsZ (inl "seed:[z]")
  ∈ trace (walkTreeWithFlightRouterState nestedDynamic argsNested heap0)
  ∧ parentRendered argsNested = false.
Proof.
  split; [exact renderArgsZ_in_trace|].
  exact (proj2 (parentRendered_constant nestedDynamic argsNested heap0)
           renderArgsZ (inl "seed:[z]") renderArgsZ_in_trace).
Defined.

Lemma route_tree_request_never_renders_witness :
  (isRoutePPREnabled (experimental (renderOpts (ctx argsRouteTree))) = false
   ∧ isRouteTreePrefetchRequest (parsedRequestHeaders (ctx argsRouteTree)) = true)
  ∧ renderCalls (trace (walkTreeWithFlightRouterState twoBranches argsRouteTree heap1))
    = [].
Proof.
  split; [split; reflexivity|].
  apply (proj2 (route_tree_request_never_renders twoBranches argsRouteTree heap1));
    reflexivity.
Defined.

Lemma route_tree_run_returns :
  completion (walkTreeWithFlightRouterState twoBranches argsRouteTree heap1)
  = Return [routeTreePathA; routeTreePathB].
Proof. vm_compute. reflexivity. Defined.


Lemma seed_data_by_request_kind_witness :
  (completion (walkTreeWithFlightRouterState twoBranches argsRouteTree heap1)
   = Return [routeTreePathA; routeTreePathB]
   ∧ isRoutePPREnabled (experimental (renderOpts (ctx argsRouteTree))) = false
   ∧ isRouteTreePrefetchRequest (parsedRequestHeaders (ctx argsRouteTree)) = true)
  ∧ Forall (λ path, ∃ items, path = items ++ [FSeed None; FHead None; FBool false])
      [routeTreePathA; routeTreePathB].
Proof.
  split; [split; [exact route_tree_run_returns | split; reflexivity]|].
  apply (proj2 (seed_data_by_request_kind twoBranches argsRouteTree heap1 _
                  route_tree_run_returns)); reflexivity.
Defined.

Lemma stateTwoBranches_covers :
  ∀ f, flightRouterState argsTwoBranches = Some f → covers twoBranches f = true.
Proof. intros f [= <-]. vm_compute. reflexivity. Defined.

Lemma covered_router_state_is_safe_witness :
  covers twoBranches stateTwoBranches = true
  ∧ completion (walkTreeWithFlightRouterState twoBranches argsTwoBranches heap1)
    ≠ Throw TypeError.
Proof.
  split; [vm_compute; reflexivity|].
  apply (covered_router_state_is_safe twoBranches argsTwoBranches heap1).
  exact stateTwoBranches_covers.
Defined.

Lemma walk_is_bounded_witness :
  completion (walkTreeWithFlightRouterState twoBranches argsRouteTree heap1)
  = Return [routeTreePathA; routeTreePathB]
  ∧ length [routeTreePathA; routeTreePathB]
    ≤ length (walkCalls
                (trace (walkTreeWithFlightRouterState twoBranches argsRouteTree heap1))).
Proof.
  split; [exact route_tree_run_returns|].
  apply (proj2 (proj2 (proj2 (proj2 (walk_is_bounded twoBranches argsRouteTree heap1))))).
  exact route_tree_run_returns.
Defined.

Lemma callPageA_at_position :
  callAt [0; 0] twoBranches argsTwoBranches heap1 = Some callPageA.
Proof.
  unfold callPageA.
  assert (Hsome : match callAt [0; 0] twoBranches argsTwoBranches heap1 with
                  | Some _ => true
                  | None => false
                  end = true) by (vm_compute; reflexivity).
  destruct (callAt [0; 0] twoBranches argsTwoBranches heap1) as [c|];
    [reflexivity | discriminate Hsome].
Defined.

Lemma renderer_sets_hold_lineage_assets_witness :
  (allocated argsTwoBranches heap1
   ∧ callAt [0; 0] twoBranches argsTwoBranches heap1 = Some callPageA)
  ∧ contents callPageA.2 (injectedCSS callPageA.1.2)
    = contents heap1 (injectedCSS argsTwoBranches)
      ∪ cssAlong argsTwoBranches (lineageAt [0; 0] twoBranches).
Proof.
  split; [split; [exact heap1_allocated | exact callPageA_at_position]|].
  destruct (proj1 (renderer_sets_hold_lineage_assets twoBranches argsTwoBranches heap1
                     heap1_allocated) [0; 0] callPageA callPageA_at_position)
    as (_ & _ & Hcss & _).
  exact Hcss.
Defined.

(** The page of the first branch is handed the stylesheets of the layouts of
    [dash] and [a], and not that of [b]. *)
Example pageA_stylesheets :
  rendererArgs callPageA = renderArgsPageA
  ∧ elements (contents callPageA.2 (ct_injectedCSS renderArgsPageA))
    = ["a/layout.css"; "root.css"; "dash/layout.css"].
Proof. split; vm_compute; reflexivity. Qed.

Lemma isRedirectError_declared_digest_witness :
  (RedirectError.hasChar RedirectError.semicolon "replace" = false
   ∧ RedirectError.hasChar RedirectError.semicolon "307" = false)
  ∧ RedirectError.isRedirectError (JN := RedirectError.demoNumbers)
      RedirectError.redirectError
    = true.
Proof.
  split; [split; reflexivity|].
  unfold RedirectError.redirectError.
  rewrite (isRedirectError_declared_digest (JN := RedirectError.demoNumbers)
             {[ "message" := RedirectError.VString "NEXT_REDIRECT" ]}
             "replace" "/a;b?x=1;y" "307" eq_refl eq_refl).
  vm_compute. reflexivity.
Defined.

Lemma destination_round_trip_witness :
  (RedirectError.hasChar RedirectError.semicolon "replace" = false
   ∧ RedirectError.hasChar RedirectError.semicolon "307" = false)
  ∧ RedirectError.destinationOf
      (RedirectError.split RedirectError.semicolon
         (RedirectError.redirectDigest "replace" "/a;b?x=1;y" "307"))
    = "/a;b?x=1;y".
Proof.
  split; [split; reflexivity|].
  exact (proj1 (destination_round_trip "replace" "/a;b?x=1;y" "307" eq_refl eq_refl)).
Defined.

Lemma redirectError_is_redirect :
  RedirectError.isRedirectError (JN := RedirectError.demoNumbers)
    RedirectError.redirectError = true.
Proof. vm_compute. reflexivity. Defined.

Lemma isRedirectError_sound_witness :
  RedirectError.isRedirectError (JN := RedirectError.demoNumbers)
    RedirectError.redirectError = true
  ∧ ∃ props digestString,
      RedirectError.redirectError = RedirectError.VObject props
      ∧ props !! "digest" = Some (RedirectError.VString digestString).
Proof.
  split; [exact redirectError_is_redirect|].
  destruct (isRedirectError_sound (JN := RedirectError.demoNumbers)
              RedirectError.redirectError redirectError_is_redirect)
    as (props & digestString & _ & _ & _ & Herr & Hdigest & _).
  by exists props, digestString.
Defined.

Lemma isRedirectError_without_last_semicolon_witness :
  (RedirectError.hasChar RedirectError.semicolon "push" = false
   ∧ RedirectError.hasChar RedirectError.semicolon "/login" = false
   ∧ RedirectError.hasChar RedirectError.semicolon "307" = false)
  ∧ RedirectError.isRedirectError (JN := RedirectError.demoNumbers)
      (RedirectError.VObject
         (<["digest" := RedirectError.VString "NEXT_REDIRECT;push;/login;307"]> ∅))
    = false.
Proof.
  split; [repeat split; reflexivity|].
  rewrite (isRedirectError_without_last_semicolon (JN := RedirectError.demoNumbers)
             ∅ "push" "/login" "307" eq_refl eq_refl eq_refl).
  vm_compute. reflexivity.
Defined.
